(** * GoogleActionResponse: a shallow embedding of
      [lib/platforms/googleaction/googleActionResponse.js]

    The response document is embedded as nested records, one per object
    literal of the source; a property the constructor's skeleton leaves out
    is an [option] field ([None] is JavaScript's [undefined]).  A run-time
    fault (reading a property of [undefined]) is the [TypeError] of the
    [result] type, so that [try]/[catch] and uncaught faults can both be
    stated.  JavaScript strings are embedded as [string]. *)

From Stdlib Require Import String Ascii List Bool Arith Lia.
Import ListNotations.
Open Scope string_scope.

(** ** Strings: literal global replace *)

Module Str.

(** [s.startsWith(p)]: the test a literal regular expression performs at one
    position. *)
Fixpoint startsWith (p s : string) : bool :=
  match p, s with
  | EmptyString, _ => true
  | String _ _, EmptyString => false
  | String a p', String c s' => Ascii.eqb a c && startsWith p' s'
  end.

(** [s.indexOf(p) > -1]. *)
Fixpoint includes (p s : string) : bool :=
  match s with
  | EmptyString => startsWith p s
  | String _ s' => startsWith p s || includes p s'
  end.

(** [s.replace(/p/g, '')] for a literal, non-empty [p]: one scan from the
    left; at a match the whole match is dropped and the scan resumes after it
    (matches do not overlap and the output is never rescanned).  [skip] counts
    the characters of the current match still to drop. *)
Fixpoint remove_from (p : string) (skip : nat) (s : string) : string :=
  match s with
  | EmptyString => EmptyString
  | String c s' =>
      match skip with
      | S k => remove_from p k s'
      | O => if startsWith p s
             then remove_from p (String.length p - 1) s'
             else String c (remove_from p 0 s')
      end
  end.

Definition remove_all (p s : string) : string := remove_from p 0 s.

(** Whether character [b] occurs in [p]. *)
Fixpoint has_char (b : ascii) (p : string) : bool :=
  match p with
  | EmptyString => false
  | String a p' => Ascii.eqb a b || has_char b p'
  end.

End Str.

(** ** SpeechMarkup *)

Definition speak_open : string := "<speak>".
Definition speak_close : string := "</speak>".

(** [function removeSpeakTags(text)] *)
Definition removeSpeakTags (text : string) : string :=
  Str.remove_all speak_close (Str.remove_all speak_open text).

(** [function toSSML(text)] *)
Definition toSSML (text : string) : string :=
  let text := Str.remove_all speak_close (Str.remove_all speak_open text) in
  let text := speak_open ++ text ++ speak_close in
  text.

(** A text carries an envelope tag when [<speak>] or [</speak>] is one of its
    substrings. *)
Definition has_speak_tag (t : string) : bool :=
  Str.includes speak_open t || Str.includes speak_close t.

(** ** JavaScript values and faults *)

(** The two kinds of exception the source can raise: the run-time's
    [TypeError] (a property read on [undefined]) and [new Error(message)]. *)
Inductive js_error : Type :=
| TypeError
| Error (message : string).

Inductive result (A : Type) : Type :=
| Ok (a : A)
| Throw (e : js_error).
Arguments Ok {A} a.
Arguments Throw {A} e.

Definition bind {A B : Type} (r : result A) (k : A -> result B) : result B :=
  match r with
  | Ok a => k a
  | Throw e => Throw e
  end.

Notation "x <- r ;; k" := (bind r (fun x => k))
  (at level 61, r at next level, right associativity).

(** [try { return body } catch (err) { return false; }] *)
Definition try_catch_false (body : result bool) : bool :=
  match body with
  | Ok b => b
  | Throw _ => false
  end.

(** Reading a property of a value that may be [undefined]. *)
Definition read {A : Type} (o : option A) : result A :=
  match o with
  | Some a => Ok a
  | None => Throw TypeError
  end.

(** [a[i]] followed by a property read: [undefined] past the end. *)
Definition index {A : Type} (l : list A) (i : nat) : result A :=
  read (nth_error l i).

(** Truthiness of a string: [if (s)] holds for a non-empty string. *)
Definition truthy (s : string) : bool := negb (String.eqb s "").

(** Truthiness of an optional string argument: an omitted argument is
    [undefined]. *)
Definition truthy_arg (a : option string) : bool :=
  match a with
  | Some s => truthy s
  | None => false
  end.

(** [a !== b] between a possibly [undefined] string property and a string. *)
Definition strict_neq (a : option string) (b : string) : bool :=
  match a with
  | Some s => negb (String.eqb s b)
  | None => true
  end.

(** The values stored as context parameters. *)
Inductive jsval : Type :=
| JUndefined
| JNull
| JBool (b : bool)
| JStr (s : string).

(** [a === b] on [jsval]. *)
Definition strict_eq (a b : jsval) : bool :=
  match a, b with
  | JUndefined, JUndefined => true
  | JNull, JNull => true
  | JBool x, JBool y => Bool.eqb x y
  | JStr x, JStr y => String.eqb x y
  | _, _ => false
  end.

(** ** UI elements *)

Record Image : Type := mkImage {
  url : string;
  accessibilityText : string;
  width : option nat;
  height : option nat }.

Record Button : Type := mkButton {
  button_title : string;
  openUrlAction_url : string }.

Record BasicCard : Type := mkBasicCard {
  title : option string;
  subtitle : option string;
  formattedText : option string;
  image : option Image;
  buttons : option (list Button) }.

Record OptionInfo : Type := mkOptionInfo {
  key : string;
  synonyms : list string }.

Record OptionItem : Type := mkOptionItem {
  item_title : option string;
  item_description : option string;
  item_image : option Image;
  optionInfo : OptionInfo }.

(** [class Collection] with the [title] that [List.setTitle] adds. *)
Record Collection : Type := mkCollection {
  collection_items : list OptionItem;
  collection_title : option string }.

(** [new BasicCard()] *)
Definition new_BasicCard : BasicCard := mkBasicCard None None None None None.

Module BasicCardSetters.

(** [BasicCard.setTitle] *)
Definition setTitle (c : BasicCard) (t : string) : result BasicCard :=
  if negb (truthy t) then Throw (Error "Title cannot be empty")
  else Ok (mkBasicCard (Some t) (subtitle c) (formattedText c) (image c) (buttons c)).

(** [BasicCard.setFormattedText] *)
Definition setFormattedText (c : BasicCard) (t : string) : result BasicCard :=
  if negb (truthy t) then Throw (Error "FormattedText cannot be empty")
  else Ok (mkBasicCard (title c) (subtitle c) (Some t) (image c) (buttons c)).

(** [BasicCard.setImage] without [width] and [height], as the card builder
    calls it. *)
Definition setImage (c : BasicCard) (u a : string) : result BasicCard :=
  if negb (truthy u) then Throw (Error "url cannot be empty")
  else if negb (truthy a) then Throw (Error "accessibilityText cannot be empty")
  else Ok (mkBasicCard (title c) (subtitle c) (formattedText c)
             (Some (mkImage u a None None)) (buttons c)).

End BasicCardSetters.

(** ** The response document *)

(** An element of [richResponse.items]: [{simpleResponse: {ssml}}] or
    [{basicCard: card}]. *)
Inductive ResponseItem : Type :=
| simpleResponse (ssml : string)
| basicCard (card : BasicCard).

Record LinkOutSuggestion : Type := mkLinkOut {
  destinationName : string;
  link_url : string }.

Record RichResponse : Type := mkRichResponse {
  items : list ResponseItem;
  suggestions : option (list string);
  linkOutSuggestion : option LinkOutSuggestion }.

(** The key of the option payload in [systemIntent.data]. *)
Inductive SelectKey : Type := listSelect | carouselSelect.

Record IntentData : Type := mkIntentData {
  select_key : SelectKey;
  select_value : Collection;
  at_type : string }.

Record SystemIntent : Type := mkSystemIntent {
  intent : string;
  data : IntentData }.

Record PermissionsRequest : Type := mkPermissionsRequest {
  permissions : option (list string) }.

Record Google : Type := mkGoogle {
  expectUserResponse : bool;
  richResponse : RichResponse;
  noInputPrompts : option (list string);
  systemIntent : option SystemIntent;
  permissions_request : option PermissionsRequest }.

(** A context object.  [{}] has neither property. *)
Record Context : Type := mkContext {
  name : option string;
  parameters : option (list (string * jsval)) }.

(** [this.responseObj]; [google] stands for [data.google]. *)
Record ResponseObj : Type := mkResponseObj {
  speech : string;
  google : Google;
  contextOut : option (list Context) }.

Definition set_google (d : ResponseObj) (g : Google) : ResponseObj :=
  mkResponseObj (speech d) g (contextOut d).

Definition set_items (g : Google) (l : list ResponseItem) : Google :=
  mkGoogle (expectUserResponse g)
    (mkRichResponse l (suggestions (richResponse g))
       (linkOutSuggestion (richResponse g)))
    (noInputPrompts g) (systemIntent g) (permissions_request g).

Definition set_systemIntent (g : Google) (s : SystemIntent) : Google :=
  mkGoogle (expectUserResponse g) (richResponse g) (noInputPrompts g)
    (Some s) (permissions_request g).

Definition set_permissions (g : Google) (l : list string) : Google :=
  mkGoogle (expectUserResponse g) (richResponse g) (noInputPrompts g)
    (systemIntent g) (Some (mkPermissionsRequest (Some l))).

(** [constructor(responseObj)]: the default skeleton, or the given object
    taken as it is. *)
Definition constructor (responseObj : option ResponseObj) : ResponseObj :=
  match responseObj with
  | Some o => o
  | None =>
      mkResponseObj "<speak></speak>"
        (mkGoogle true (mkRichResponse [] None None) None None None)
        None
  end.

(** ** Contexts *)

(** The object [{}]. *)
Definition empty_object : Context := mkContext None None.

(** What [getContextOut] hands back: the object stored at index [i] of
    [contextOut], shared with the document, or an object the call created,
    which nothing else refers to. *)
Inductive ContextRef : Type :=
| stored (i : nat) (c : Context)
| fresh (c : Context).

Definition deref (r : ContextRef) : Context :=
  match r with
  | stored _ c => c
  | fresh c => c
  end.

(** [contextOut[i].name === name] *)
Definition name_is (c : Context) (n : string) : bool :=
  match name c with
  | Some m => String.eqb m n
  | None => false
  end.

(** The [for] loop of [getContextOut], from index [i] on. *)
Fixpoint getContextOut_loop (cs : list Context) (i : nat) (n : string) : ContextRef :=
  match cs with
  | [] => fresh empty_object
  | c :: cs' => if name_is c n then stored i c else getContextOut_loop cs' (S i) n
  end.

(** [getContextOut(name)]: [contextOut.length] faults when the document has
    no [contextOut]. *)
Definition getContextOut (d : ResponseObj) (n : string) : result ContextRef :=
  cs <- read (contextOut d) ;;
  Ok (getContextOut_loop cs 0 n).

(** [setContextOut(contexts)] *)
Definition setContextOut (d : ResponseObj) (contexts : list Context) : ResponseObj :=
  mkResponseObj (speech d) (google d) (Some contexts).

(** [addContextOutObject(context)] *)
Definition addContextOutObject (d : ResponseObj) (context : Context) : result ResponseObj :=
  cs <- read (contextOut d) ;;
  Ok (mkResponseObj (speech d) (google d) (Some (cs ++ [context])%list)).

(** Assignment to the object stored at index [i]. *)
Fixpoint assign_nth (cs : list Context) (i : nat) (c : Context) : list Context :=
  match cs, i with
  | [], _ => []
  | _ :: cs', O => c :: cs'
  | c0 :: cs', S j => c0 :: assign_nth cs' j c
  end.

Definition write_context (d : ResponseObj) (i : nat) (c : Context) : ResponseObj :=
  mkResponseObj (speech d) (google d)
    (option_map (fun cs => assign_nth cs i c) (contextOut d)).

(** Every object is truthy, [{}] included. *)
Definition object_truthy (c : Context) : bool := true.

(** [Object.keys(context)] *)
Definition object_keys (c : Context) : list string :=
  ((match name c with Some _ => ["name"] | None => [] end)
   ++ (match parameters c with Some _ => ["parameters"] | None => [] end))%list.

(** [parameters[parameterName]] *)
Definition lookup_parameter (ps : list (string * jsval)) (p : string) : jsval :=
  match find (fun kv => String.eqb (fst kv) p) ps with
  | Some kv => snd kv
  | None => JUndefined
  end.

Section Lodash.

(** lodash's [_.set(object, path, value)] on a context object; the library is
    not part of the repository, so its effect on the object is left open. *)
Variable lodash_set : Context -> string -> jsval -> Context.

(** [addContextOutParameter(contextName, parameterName, value)] *)
Definition addContextOutParameter (d : ResponseObj)
    (contextName parameterName : string) (value : jsval) : result ResponseObj :=
  context <- getContextOut d contextName ;;
  match context with
  | stored i c =>
      Ok (write_context d i (lodash_set c ("parameters." ++ parameterName) value))
  | fresh c =>
      let _ := lodash_set c ("parameters." ++ parameterName) value in
      Ok d
  end.

End Lodash.

(** [_.set(context, 'parameters.' + p, value)] for a parameter name [p] that
    is a plain key: [parameters] is created when absent and [p] is assigned. *)
Definition set_plain_parameter (c : Context) (path : string) (v : jsval) : Context :=
  let p := substring 11 (String.length path - 11) path in
  let ps := match parameters c with Some ps => ps | None => [] end in
  mkContext (name c)
    (Some ((p, v) :: filter (fun kv => negb (String.eqb (fst kv) p)) ps)).

(** [getContextOutParameter(contextName, parameterName)] *)
Definition getContextOutParameter (d : ResponseObj)
    (contextName parameterName : string) : result jsval :=
  context <- getContextOut d contextName ;;
  let context := deref context in
  if negb (object_truthy context)
  then Throw (Error ("No context with name " ++ contextName ++ " found."))
  else
    ps <- read (parameters context) ;;
    Ok (lookup_parameter ps parameterName).

(** [hasContextOutParameter(contextName, parameterName, value)] *)
Definition hasContextOutParameter (d : ResponseObj) (contextName : string)
    (parameterName : option string) (value : jsval) : result bool :=
  context <- getContextOut d contextName ;;
  let context := deref context in
  if negb (object_truthy context) || Nat.eqb (List.length (object_keys context)) 0
  then Ok false
  else
    match parameterName with
    | Some p =>
        if truthy p
        then
          ps <- read (parameters context) ;;
          let parameterValue := lookup_parameter ps p in
          if negb (strict_eq parameterValue value) then Ok false else Ok true
        else Ok true
    | None => Ok true
    end.

(** [hasState(state)] *)
Definition hasState (d : ResponseObj) (state : jsval) : result bool :=
  hasContextOutParameter d "session" (Some "STATE") state.

(** ** Permissions *)

Module PERMISSIONS_ENUM.
Definition NAME : string := "NAME".
Definition DEVICE_COARSE_LOCATION : string := "DEVICE_COARSE_LOCATION".
Definition DEVICE_PRECISE_LOCATION : string := "DEVICE_PRECISE_LOCATION".
End PERMISSIONS_ENUM.

(** [getPermissions()]:
    [_.get(this, 'responseObj.data.google.permissions_request.permissions', [])] *)
Definition getPermissions (d : ResponseObj) : list string :=
  match permissions_request (google d) with
  | Some pr =>
      match permissions pr with
      | Some l => l
      | None => []
      end
  | None => []
  end.

(** lodash's [_.uniq]: one pass over [array]; a value is pushed on [result]
    unless it is there already, so the first occurrence is the one kept. *)
Fixpoint baseUniq (result array : list string) : list string :=
  match array with
  | [] => result
  | v :: rest =>
      if existsb (String.eqb v) result
      then baseUniq result rest
      else baseUniq (result ++ [v])%list rest
  end.

Definition uniq (array : list string) : list string := baseUniq [] array.

(** [function setPermissionToResponse(permission)] *)
Definition setPermissionToResponse (d : ResponseObj) (permission : string) : ResponseObj :=
  let permissionArray := getPermissions d in
  let permissionArray := (permissionArray ++ [permission])%list in
  let permissionArray := uniq permissionArray in
  set_google d (set_permissions (google d) permissionArray).

Definition setNamePermission (d : ResponseObj) : ResponseObj :=
  setPermissionToResponse d PERMISSIONS_ENUM.NAME.

Definition setDeviceCoarseLocationPermission (d : ResponseObj) : ResponseObj :=
  setPermissionToResponse d PERMISSIONS_ENUM.DEVICE_COARSE_LOCATION.

Definition setDevicePreciseLocationPermission (d : ResponseObj) : ResponseObj :=
  setPermissionToResponse d PERMISSIONS_ENUM.DEVICE_PRECISE_LOCATION.

(** ** Speech operations *)

(** [tell(speech)] *)
Definition tell (d : ResponseObj) (speech : string) : ResponseObj :=
  let g := google d in
  let g := mkGoogle false (richResponse g) (noInputPrompts g)
             (systemIntent g) (permissions_request g) in
  let g := set_items g (simpleResponse speech :: items (richResponse g)) in
  mkResponseObj speech g (contextOut d).

(** [ask(speech, repromptSpeech)] *)
Definition ask (d : ResponseObj) (speech repromptSpeech : string) : ResponseObj :=
  let g := google d in
  let g := mkGoogle true (richResponse g) (noInputPrompts g)
             (systemIntent g) (permissions_request g) in
  let g := set_items g (simpleResponse speech :: items (richResponse g)) in
  let g := mkGoogle (expectUserResponse g) (richResponse g)
             (Some [repromptSpeech]) (systemIntent g) (permissions_request g) in
  mkResponseObj speech g (contextOut d).

(** The double-quote character (code 34). *)
Definition dquote : string := String (Ascii.ascii_of_nat 34) EmptyString.

(** The string that [play] and [isPlay] build. *)
Definition audio_speech (audioUrl fallbackText : string) : string :=
  "<speak><audio src=" ++ dquote ++ audioUrl ++ dquote ++ ">"
    ++ fallbackText ++ "</audio></speak>".

(** [play(audioUrl, fallbackText)] *)
Definition play (d : ResponseObj) (audioUrl fallbackText : string) : ResponseObj :=
  let speech := audio_speech audioUrl fallbackText in
  tell d speech.

(** [item.simpleResponse.ssml]: a fault on an item without [simpleResponse]. *)
Definition simpleResponse_ssml (item : ResponseItem) : result string :=
  match item with
  | simpleResponse ssml => Ok ssml
  | basicCard _ => Throw TypeError
  end.

(** [items[0].simpleResponse.ssml] *)
Definition head_ssml (d : ResponseObj) : result string :=
  item <- index (items (richResponse (google d))) 0 ;;
  simpleResponse_ssml item.

(** [getSpeechText()] *)
Definition getSpeechText (d : ResponseObj) : result string :=
  ssml <- head_ssml d ;;
  if truthy ssml
  then
    ssml <- head_ssml d ;;
    Ok (removeSpeakTags ssml)
  else Ok "".

(** ** UI element builders *)

(** [addRichResponseItem(item)] *)
Definition addRichResponseItem (d : ResponseObj) (item : ResponseItem) : ResponseObj :=
  set_google d
    (set_items (google d) (items (richResponse (google d)) ++ [item])%list).

(** [addBasicCard(title, formattedText)] *)
Definition addBasicCard (d : ResponseObj) (title formattedText : string) : result ResponseObj :=
  c <- BasicCardSetters.setTitle new_BasicCard title ;;
  c <- BasicCardSetters.setFormattedText c formattedText ;;
  Ok (addRichResponseItem d (basicCard c)).

(** [addImageCard(title, formattedText, imageUrl, accessibilityText)], through
    [CardBuilder.createImageCard] and [build]. *)
Definition addImageCard (d : ResponseObj)
    (title formattedText imageUrl accessibilityText : string) : result ResponseObj :=
  c <- BasicCardSetters.setTitle new_BasicCard title ;;
  c <- BasicCardSetters.setFormattedText c formattedText ;;
  c <- (if truthy imageUrl
        then BasicCardSetters.setImage c imageUrl accessibilityText
        else Ok c) ;;
  Ok (addRichResponseItem d (basicCard c)).

Definition OptionValueSpec : string :=
  "type.googleapis.com/google.actions.v2.OptionValueSpec".

(** [addList(list)] *)
Definition addList (d : ResponseObj) (list : Collection) : ResponseObj :=
  let systemIntent :=
    mkSystemIntent "actions.intent.OPTION"
      (mkIntentData listSelect list OptionValueSpec) in
  set_google d (set_systemIntent (google d) systemIntent).

(** [addCarousel(carousel)] *)
Definition addCarousel (d : ResponseObj) (carousel : Collection) : ResponseObj :=
  let systemIntent :=
    mkSystemIntent "actions.intent.OPTION"
      (mkIntentData carouselSelect carousel OptionValueSpec) in
  set_google d (set_systemIntent (google d) systemIntent).

(** One call of [addList] or [addCarousel], and a sequence of them. *)
Inductive OptionCall : Type :=
| call_addList (list : Collection)
| call_addCarousel (carousel : Collection).

Definition run_call (d : ResponseObj) (c : OptionCall) : ResponseObj :=
  match c with
  | call_addList l => addList d l
  | call_addCarousel l => addCarousel d l
  end.

Definition run_calls (d : ResponseObj) (cs : list OptionCall) : ResponseObj :=
  fold_left run_call cs d.

(** ** Introspection predicates *)

(** [isTell(speechText)] *)
Definition isTell (d : ResponseObj) (speechText : option string) : bool :=
  try_catch_false
    (if negb (Bool.eqb (expectUserResponse (google d)) false)
     then Ok false
     else
       match speechText with
       | Some s =>
           if truthy s
           then
             if negb (String.eqb (speech d) (toSSML s))
             then Ok false
             else
               ssml <- head_ssml d ;;
               if negb (String.eqb ssml (toSSML s)) then Ok false else Ok true
           else Ok true
       | None => Ok true
       end).

(** [noInputPrompts[0].ssml] *)
Definition head_reprompt (d : ResponseObj) : result string :=
  prompts <- read (noInputPrompts (google d)) ;;
  index prompts 0.

(** The reprompt part of [isAsk]. *)
Definition isAsk_reprompt (d : ResponseObj) (repromptText : option string) : result bool :=
  match repromptText with
  | Some r =>
      if truthy r
      then
        ssml <- head_reprompt d ;;
        if negb (String.eqb ssml (toSSML r)) then Ok false else Ok true
      else Ok true
  | None => Ok true
  end.

(** [isAsk(speechText, repromptText)] *)
Definition isAsk (d : ResponseObj) (speechText repromptText : option string) : bool :=
  try_catch_false
    (if negb (Bool.eqb (expectUserResponse (google d)) true)
     then Ok false
     else
       match speechText with
       | Some s =>
           if truthy s
           then
             if negb (String.eqb (speech d) (toSSML s))
             then Ok false
             else
               ssml <- head_ssml d ;;
               if negb (String.eqb ssml (toSSML s))
               then Ok false
               else isAsk_reprompt d repromptText
           else isAsk_reprompt d repromptText
       | None => isAsk_reprompt d repromptText
       end).

(** [isPlay(audioUrl, fallbackText)] *)
Definition isPlay (d : ResponseObj) (audioUrl fallbackText : string) : bool :=
  let speech := audio_speech audioUrl fallbackText in
  isTell d (Some speech).

(** [isEmptyResponse()] *)
Definition isEmptyResponse (d : ResponseObj) : bool :=
  isTell d (Some ("<break time=" ++ dquote ++ "1ms" ++ dquote ++ "/>")).

(** [items.filter(function(item) { return item.basicCard; })] *)
Definition basicCards_of (l : list ResponseItem) : list BasicCard :=
  flat_map (fun item => match item with
                        | basicCard c => [c]
                        | simpleResponse _ => []
                        end) l.

(** [if (arg) { if (prop !== arg) { return false; } }]: whether the guarded
    comparison asks for [return false].  [prop] is read only under a truthy
    [arg], so its fault counts only there. *)
Definition differs (arg : option string) (prop : result (option string)) : result bool :=
  match arg with
  | Some s =>
      if truthy s
      then p <- prop ;; Ok (strict_neq p s)
      else Ok false
  | None => Ok false
  end.

(** [hasBasicCard(title, formattedText)] *)
Definition hasBasicCard (d : ResponseObj) (t ft : option string) : bool :=
  try_catch_false
    (let basicCards := basicCards_of (items (richResponse (google d))) in
     if Nat.eqb (List.length basicCards) 0
     then Ok false
     else
       no <- differs t (c <- index basicCards 0 ;; Ok (title c)) ;;
       if no then Ok false
       else
         no <- differs ft (c <- index basicCards 0 ;; Ok (formattedText c)) ;;
         if no then Ok false else Ok true).

(** [hasImageCard(title, formattedText, imageUrl, accessibilityText)] *)
Definition hasImageCard (d : ResponseObj) (t ft imageUrl accText : option string) : bool :=
  if negb (hasBasicCard d t ft)
  then false
  else
    try_catch_false
      (let basicCards := basicCards_of (items (richResponse (google d))) in
       if Nat.eqb (List.length basicCards) 0
       then Ok false
       else
         no <- differs imageUrl
                 (c <- index basicCards 0 ;; img <- read (image c) ;;
                  Ok (Some (url img))) ;;
         if no then Ok false
         else
           no <- differs accText
                   (c <- index basicCards 0 ;; img <- read (image c) ;;
                    Ok (Some (accessibilityText img))) ;;
           if no then Ok false else Ok true).

(** The argument of [speechTextContains]: a string or an array of strings. *)
Inductive StrArg : Type :=
| a_string (s : string)
| an_array (l : list string).

(** [String(str)]: an array is joined with commas. *)
Definition to_string (a : StrArg) : string :=
  match a with
  | a_string s => s
  | an_array l => String.concat "," l
  end.

(** [speechTextContains(str)]: the [forEach] over an array discards what its
    callback returns. *)
Definition speechTextContains (d : ResponseObj) (str : StrArg) : result bool :=
  speechText <- getSpeechText d ;;
  Ok (Str.includes (to_string str) speechText).

(** ** Further builders *)

(** [addSuggestionChips(chips)]: [suggestions] is set to [[]] and every chip
    is pushed on it as [{title: chip}]. *)
Definition addSuggestionChips (d : ResponseObj) (chips : list string) : ResponseObj :=
  let g := google d in
  let pushed := fold_left (fun acc chip => (acc ++ [chip])%list) chips [] in
  set_google d
    (mkGoogle (expectUserResponse g)
       (mkRichResponse (items (richResponse g)) (Some pushed)
          (linkOutSuggestion (richResponse g)))
       (noInputPrompts g) (systemIntent g) (permissions_request g)).

(** [addLinkOutSuggestion(destinationName, url)] *)
Definition addLinkOutSuggestion (d : ResponseObj) (destinationName url : string) : ResponseObj :=
  let g := google d in
  let linkOutSuggestion := mkLinkOut destinationName url in
  set_google d
    (mkGoogle (expectUserResponse g)
       (mkRichResponse (items (richResponse g)) (suggestions (richResponse g))
          (Some linkOutSuggestion))
       (noInputPrompts g) (systemIntent g) (permissions_request g)).

(** [if (x) this.x = x] for an optional string property: an empty string is
    not copied. *)
Definition keep_truthy (a : option string) : option string :=
  if truthy_arg a then a else None.

(** Truthiness of an optional number: [0] is falsy. *)
Definition truthy_num (n : option nat) : bool :=
  match n with
  | Some (S _) => true
  | _ => false
  end.

(** The image object both [setImage] methods build: [width] and [height]
    are assigned only when truthy. *)
Definition make_image (u a : string) (w h : option nat) : Image :=
  mkImage u a (if truthy_num w then w else None) (if truthy_num h then h else None).

Module BasicCardMethods.

(** [constructor(basicCard)] *)
Definition constructor (basicCard : option BasicCard) : BasicCard :=
  match basicCard with
  | Some b =>
      mkBasicCard (keep_truthy (title b)) (keep_truthy (subtitle b))
        (keep_truthy (formattedText b)) (image b) (buttons b)
  | None => mkBasicCard None None None None None
  end.

(** [BasicCard.setSubtitle] *)
Definition setSubtitle (c : BasicCard) (s : string) : result BasicCard :=
  if negb (truthy s) then Throw (Error "Subtitle cannot be empty")
  else Ok (mkBasicCard (title c) (Some s) (formattedText c) (image c) (buttons c)).

(** [BasicCard.setImage(url, accessibilityText, width, height)] *)
Definition setImage (c : BasicCard) (u a : string) (w h : option nat) : result BasicCard :=
  if negb (truthy u) then Throw (Error "url cannot be empty")
  else if negb (truthy a) then Throw (Error "accessibilityText cannot be empty")
  else Ok (mkBasicCard (title c) (subtitle c) (formattedText c)
             (Some (make_image u a w h)) (buttons c)).

(** [BasicCard.addButton(text, url)]: the card after the call and how the
    call ended.  [buttons] is created before the arguments are tested, so it
    is there after a call that throws. *)
Definition addButton (c : BasicCard) (text u : string) : BasicCard * result unit :=
  let bs := match buttons c with Some bs => bs | None => [] end in
  let c := mkBasicCard (title c) (subtitle c) (formattedText c) (image c) (Some bs) in
  if negb (truthy text) then (c, Throw (Error "text cannot be empty"))
  else if negb (truthy u) then (c, Throw (Error "url cannot be empty"))
  else
    (mkBasicCard (title c) (subtitle c) (formattedText c) (image c)
       (Some (bs ++ [mkButton text u])%list),
     Ok tt).

End BasicCardMethods.

Module OptionItemMethods.

(** [constructor(item)] *)
Definition constructor (item : option OptionItem) : OptionItem :=
  match item with
  | Some i =>
      mkOptionItem (keep_truthy (item_title i)) (keep_truthy (item_description i))
        (item_image i) (optionInfo i)
  | None => mkOptionItem None None None (mkOptionInfo "" [])
  end.

(** [OptionItem.setTitle] *)
Definition setTitle (i : OptionItem) (t : string) : result OptionItem :=
  if negb (truthy t) then Throw (Error "title cannot be empty")
  else Ok (mkOptionItem (Some t) (item_description i) (item_image i) (optionInfo i)).

(** [OptionItem.setDescription] *)
Definition setDescription (i : OptionItem) (s : string) : result OptionItem :=
  if negb (truthy s) then Throw (Error "description cannot be empty")
  else Ok (mkOptionItem (item_title i) (Some s) (item_image i) (optionInfo i)).

(** [OptionItem.setImage(url, accessibilityText, width, height)] *)
Definition setImage (i : OptionItem) (u a : string) (w h : option nat) : result OptionItem :=
  if negb (truthy u) then Throw (Error "url cannot be empty")
  else if negb (truthy a) then Throw (Error "accessibilityText cannot be empty")
  else Ok (mkOptionItem (item_title i) (item_description i)
             (Some (make_image u a w h)) (optionInfo i)).

(** [OptionItem.setKey] *)
Definition setKey (i : OptionItem) (k : string) : result OptionItem :=
  if negb (truthy k) then Throw (Error "key cannot be empty")
  else Ok (mkOptionItem (item_title i) (item_description i) (item_image i)
             (mkOptionInfo k (synonyms (optionInfo i)))).

(** [OptionItem.addSynonym] *)
Definition addSynonym (i : OptionItem) (s : string) : result OptionItem :=
  if negb (truthy s) then Throw (Error "synonym cannot be empty")
  else Ok (mkOptionItem (item_title i) (item_description i) (item_image i)
             (mkOptionInfo (key (optionInfo i))
                (synonyms (optionInfo i) ++ [s])%list)).

(** The chain [item.addSynonym(s1).addSynonym(s2)...]; a call that throws
    ends it. *)
Fixpoint addSynonyms (i : OptionItem) (l : list string) : result OptionItem :=
  match l with
  | [] => Ok i
  | s :: l' => i' <- addSynonym i s ;; addSynonyms i' l'
  end.

End OptionItemMethods.

Module CollectionMethods.

(** [Collection.constructor(items)], also the constructor of [Carousel] and
    [List]; an array is truthy even when empty. *)
Definition constructor (its : option (list OptionItem)) : Collection :=
  match its with
  | Some l => mkCollection l None
  | None => mkCollection [] None
  end.

(** [Collection.addItem(item)] *)
Definition addItem (c : Collection) (item : OptionItem) : Collection :=
  mkCollection (collection_items c ++ [item])%list (collection_title c).

(** [List.setTitle(title)] *)
Definition setTitle (c : Collection) (t : string) : result Collection :=
  if negb (truthy t) then Throw (Error "title cannot be empty")
  else Ok (mkCollection (collection_items c) (Some t)).

End CollectionMethods.

(** ** Sequences of builder calls *)

(** One call of a method that builds the document. *)
Inductive BuilderCall : Type :=
| call_tell (speech : string)
| call_ask (speech repromptSpeech : string)
| call_play (audioUrl fallbackText : string)
| call_addBasicCard (title formattedText : string)
| call_addImageCard (title formattedText imageUrl accessibilityText : string)
| call_addRichResponseItem (item : ResponseItem)
| call_addSuggestionChips (chips : list string)
| call_addLinkOutSuggestion (destinationName url : string)
| call_addOption (c : OptionCall)
| call_setPermission (permission : string)
| call_setContextOut (contexts : list Context)
| call_addContextOutObject (context : Context).

Definition run_builder (d : ResponseObj) (c : BuilderCall) : result ResponseObj :=
  match c with
  | call_tell s => Ok (tell d s)
  | call_ask s r => Ok (ask d s r)
  | call_play u f => Ok (play d u f)
  | call_addBasicCard t f => addBasicCard d t f
  | call_addImageCard t f u a => addImageCard d t f u a
  | call_addRichResponseItem item => Ok (addRichResponseItem d item)
  | call_addSuggestionChips chips => Ok (addSuggestionChips d chips)
  | call_addLinkOutSuggestion n u => Ok (addLinkOutSuggestion d n u)
  | call_addOption c => Ok (run_call d c)
  | call_setPermission p => Ok (setPermissionToResponse d p)
  | call_setContextOut cs => Ok (setContextOut d cs)
  | call_addContextOutObject c => addContextOutObject d c
  end.

(** The calls in order; the first one that throws ends the sequence. *)
Fixpoint run_builders (d : ResponseObj) (cs : list BuilderCall) : result ResponseObj :=
  match cs with
  | [] => Ok d
  | c :: cs' => d' <- run_builder d c ;; run_builders d' cs'
  end.

Definition is_speech_call (c : BuilderCall) : bool :=
  match c with
  | call_tell _ | call_ask _ _ | call_play _ _ => true
  | _ => false
  end.

(** The flat [speech] and the head of the rich items agree. *)
Definition speech_in_sync (d : ResponseObj) : Prop :=
  head_ssml d = Ok (speech d).

(** What [if (arg) { if (prop !== arg) return false; }] lets through: an
    omitted or empty argument, or a property equal to the argument. *)
Definition arg_matches (arg prop : option string) : Prop :=
  truthy_arg arg = false \/ prop = arg.

(** A card none of whose optional strings is empty. *)
Definition no_empty_field (c : BasicCard) : Prop :=
  title c <> Some "" /\ subtitle c <> Some "" /\ formattedText c <> Some "".

(** What the image part of [hasImageCard] lets through for the card [c]. *)
Definition image_matches (arg : option string) (c : BasicCard)
    (field : Image -> string) : Prop :=
  truthy_arg arg = false
  \/ exists img, image c = Some img /\ Some (field img) = arg.

(** A call that leaves [speech] alone and at most appends items. *)
Definition extends (d d' : ResponseObj) : Prop :=
  speech d' = speech d
  /\ exists tail,
       items (richResponse (google d'))
       = (items (richResponse (google d)) ++ tail)%list.

(** ** Facts about the string functions *)

Module StrFacts.
Import Str.

Lemma startsWith_app (p u v : string) :
  startsWith p u = true -> startsWith p (u ++ v) = true.
Proof.
  revert u; induction p as [|a p IH]; intros [|c u]; simpl; try easy.
  intros H; apply andb_true_iff in H as [Hc Hp].
  now rewrite Hc, (IH _ Hp).
Qed.

(** A match cannot run into a following text whose first character is
    nowhere in the pattern. *)
Lemma startsWith_stops (p u v : string) (b : ascii) :
  has_char b p = false ->
  startsWith p (u ++ String b v) = true -> startsWith p u = true.
Proof.
  revert u; induction p as [|a p IH]; intros u Hb; [easy|].
  simpl in Hb; apply orb_false_iff in Hb as [Hab Hbp].
  destruct u as [|c u]; simpl.
  - now rewrite Hab.
  - intros H; apply andb_true_iff in H as [Hc Hp].
    now rewrite Hc, (IH _ Hbp Hp).
Qed.

(** The same for a pattern [a p] whose tail [p] avoids [b], at a non-empty
    text. *)
Lemma startsWith_cons_stops (a : ascii) (p : string) (c : ascii) (u v : string)
      (b : ascii) :
  has_char b p = false ->
  startsWith (String a p) (String c u ++ String b v)
  = startsWith (String a p) (String c u).
Proof.
  intros Hb; simpl.
  destruct (Ascii.eqb a c); simpl; [|reflexivity].
  destruct (startsWith p u) eqn:Hu.
  - now apply startsWith_app.
  - destruct (startsWith p (u ++ String b v)) eqn:Huv; [|reflexivity].
    apply startsWith_stops in Huv; congruence.
Qed.

Lemma includes_cons_false (p : string) (c : ascii) (s : string) :
  includes p (String c s) = false ->
  startsWith p (String c s) = false /\ includes p s = false.
Proof. simpl; intros H; now apply orb_false_iff in H. Qed.

(** Without an occurrence of the pattern the scan copies its input. *)
Lemma remove_all_absent (p s : string) :
  includes p s = false -> remove_all p s = s.
Proof.
  unfold remove_all; induction s as [|c s IH]; [reflexivity|].
  intros H; apply includes_cons_false in H as [H1 H2].
  cbn [remove_from]; rewrite H1; f_equal; auto.
Qed.

(** The characters of a match still to drop are dropped unseen. *)
Lemma remove_from_skip (p u s : string) :
  remove_from p (String.length u) (u ++ s) = remove_from p 0 s.
Proof.
  induction u as [|c u IH]; [reflexivity|].
  destruct s; cbn; exact IH.
Qed.

(** A match at the front is dropped whole and the scan goes on behind it. *)
Lemma remove_all_match (a : ascii) (p x : string) :
  remove_all (String a p) (String a p ++ x) = remove_all (String a p) x.
Proof.
  unfold remove_all.
  change (String a p ++ x) with (String a (p ++ x)).
  cbn [remove_from].
  assert (M : startsWith (String a p) (String a (p ++ x)) = true).
  { change (String a (p ++ x)) with (String a p ++ x).
    apply startsWith_app.
    clear; induction (String a p) as [|c q IH]; [reflexivity|].
    cbn; now rewrite Ascii.eqb_refl. }
  rewrite M.
  replace (String.length (String a p) - 1) with (String.length p)
    by (cbn [String.length]; lia).
  apply remove_from_skip.
Qed.

(** [includes] is the substring relation. *)
Lemma includes_spec (p s : string) :
  includes p s = true <-> exists u v, s = u ++ p ++ v.
Proof.
  assert (SW : forall p s, startsWith p s = true <-> exists v, s = p ++ v).
  { clear; induction p as [|a p IH]; intros s; simpl.
    - split; [exists s; reflexivity | reflexivity].
    - destruct s as [|c s].
      + split; [discriminate | intros [v Hv]; discriminate].
      + rewrite andb_true_iff, IH, Ascii.eqb_eq. split.
        * intros [-> [v ->]]; now exists v.
        * intros [v Hv]; injection Hv as -> ->; split; [reflexivity | now exists v]. }
  induction s as [|c s IH].
  - simpl; rewrite SW; split.
    + intros [v Hv]; now exists "", v.
    + intros [[|? u] [v Hv]]; [now exists v | discriminate].
  - cbn [includes]; rewrite orb_true_iff, SW, IH; split.
    + intros [[v Hv] | [u [v Hv]]].
      * now exists "", v.
      * exists (String c u), v; simpl; now f_equal.
    + intros [[|c' u] [v Hv]].
      * left; now exists v.
      * right; injection Hv as _ Hv; now exists u, v.
Qed.

End StrFacts.

(** ** SpeechMarkup: wrapping and unwrapping *)

Module SpeechMarkupFacts.
Import Str StrFacts.

(** The leading tag of a wrapped text is the one match of [<speak>] at its
    front. *)
Lemma remove_open_wrapped (x : string) :
  remove_all speak_open (speak_open ++ x) = remove_all speak_open x.
Proof. reflexivity. Qed.

(** Appending the closing tag creates no opening tag. *)
Lemma open_absent_before_close (t : string) :
  includes speak_open t = false ->
  includes speak_open (t ++ speak_close) = false.
Proof.
  induction t as [|c t IH]; [reflexivity|].
  intros H; apply includes_cons_false in H as [H1 H2].
  change (String c t ++ speak_close) with (String c (t ++ speak_close)).
  cbn [includes]; rewrite (IH H2), orb_false_r.
  change (String c (t ++ speak_close))
    with (String c t ++ String "<" "/speak>").
  unfold speak_open in *.
  now rewrite startsWith_cons_stops.
Qed.

(** The closing tag appended to a text without one is the only match. *)
Lemma remove_close_appended (t : string) :
  includes speak_close t = false ->
  remove_all speak_close (t ++ speak_close) = t.
Proof.
  unfold remove_all; induction t as [|c t IH]; [reflexivity|].
  intros H; apply includes_cons_false in H as [H1 H2].
  change (String c t ++ speak_close) with (String c (t ++ speak_close)).
  cbn [remove_from].
  replace (startsWith speak_close (String c (t ++ speak_close))) with false.
  - f_equal; auto.
  - change (String c (t ++ speak_close))
      with (String c t ++ String "<" "/speak>").
    unfold speak_close in *.
    now rewrite startsWith_cons_stops.
Qed.

Lemma toSSML_removeSpeakTags (t : string) :
  toSSML t = speak_open ++ removeSpeakTags t ++ speak_close.
Proof. reflexivity. Qed.

Lemma removeSpeakTags_plain (t : string) :
  has_speak_tag t = false -> removeSpeakTags t = t.
Proof.
  unfold has_speak_tag, removeSpeakTags; intros H.
  apply orb_false_iff in H as [Ho Hc].
  now rewrite (remove_all_absent _ _ Ho), (remove_all_absent _ _ Hc).
Qed.

Lemma removeSpeakTags_wrapped (t : string) :
  has_speak_tag t = false ->
  removeSpeakTags (speak_open ++ t ++ speak_close) = t.
Proof.
  unfold has_speak_tag; intros H.
  apply orb_false_iff in H as [Ho Hc].
  unfold removeSpeakTags.
  rewrite remove_open_wrapped.
  rewrite (remove_all_absent _ _ (open_absent_before_close _ Ho)).
  now apply remove_close_appended.
Qed.

End SpeechMarkupFacts.

(** C6. For every text [t] that contains neither [<speak>] nor [</speak>],
    [removeSpeakTags (toSSML t)] is [t] again, and [toSSML] applied twice is
    [toSSML] applied once. *)
Theorem toSSML_roundtrip_idempotent (t : string) :
  has_speak_tag t = false ->
  removeSpeakTags (toSSML t) = t /\ toSSML (toSSML t) = toSSML t.
Proof.
  intros H.
  assert (R : removeSpeakTags (toSSML t) = t).
  { rewrite SpeechMarkupFacts.toSSML_removeSpeakTags,
      (SpeechMarkupFacts.removeSpeakTags_plain _ H).
    now apply SpeechMarkupFacts.removeSpeakTags_wrapped. }
  split; [exact R|].
  rewrite (SpeechMarkupFacts.toSSML_removeSpeakTags (toSSML t)), R.
  now rewrite SpeechMarkupFacts.toSSML_removeSpeakTags,
    (SpeechMarkupFacts.removeSpeakTags_plain _ H).
Qed.

Lemma toSSML_roundtrip_idempotent_witness :
  has_speak_tag "Hello <b>World</b>" = false
  /\ removeSpeakTags (toSSML "Hello <b>World</b>") = "Hello <b>World</b>"
  /\ toSSML (toSSML "Hello <b>World</b>") = toSSML "Hello <b>World</b>".
Proof.
  split; [reflexivity|].
  apply (toSSML_roundtrip_idempotent "Hello <b>World</b>"); reflexivity.
Defined.

(** Without the hypothesis the second equation can fail: removing the tags
    of this text leaves a tag behind. *)
Example toSSML_not_idempotent_with_tags :
  toSSML "<sp</speak>eak>" = "<speak><speak></speak>"
  /\ toSSML (toSSML "<sp</speak>eak>") = "<speak></speak>".
Proof. split; reflexivity. Qed.

(** ** Speech operations and their predicates *)

Module SpeechFacts.

Lemma truthy_false (s : string) : truthy s = false <-> s = "".
Proof.
  unfold truthy; rewrite negb_false_iff; apply String.eqb_eq.
Qed.

Lemma head_ssml_tell (d : ResponseObj) (s : string) :
  head_ssml (tell d s) = Ok s.
Proof. reflexivity. Qed.

Lemma head_ssml_ask (d : ResponseObj) (s r : string) :
  head_ssml (ask d s r) = Ok s.
Proof. reflexivity. Qed.

Lemma eqb_wrapped (s : string) :
  truthy s = true ->
  String.eqb s (toSSML s) = true <-> (s = "" \/ s = toSSML s).
Proof.
  intros T; rewrite String.eqb_eq; split; [auto|].
  intros [H | H]; [|exact H].
  apply truthy_false in H; congruence.
Qed.

Lemma try_catch_false_true (x : result bool) :
  try_catch_false x = true <-> x = Ok true.
Proof. destruct x as [[|]|e]; cbn; split; congruence. Qed.

Lemma isTell_tell (d : ResponseObj) (s : string) :
  isTell (tell d s) (Some s) = true <-> (s = "" \/ s = toSSML s).
Proof.
  unfold isTell; rewrite head_ssml_tell; cbn -[toSSML truthy].
  destruct (truthy s) eqn:T.
  - rewrite <- (eqb_wrapped s T).
    destruct (String.eqb s (toSSML s)); cbn; split; congruence.
  - apply truthy_false in T; split; auto.
Qed.

Lemma isAsk_reprompt_ask (d : ResponseObj) (s r : string) :
  isAsk_reprompt (ask d s r) (Some r) = Ok true <-> (r = "" \/ r = toSSML r).
Proof.
  unfold isAsk_reprompt; cbn -[toSSML truthy].
  destruct (truthy r) eqn:T.
  - rewrite <- (eqb_wrapped r T).
    destruct (String.eqb r (toSSML r)); cbn; split; congruence.
  - apply truthy_false in T; split; auto.
Qed.

Lemma isAsk_ask (d : ResponseObj) (s r : string) :
  isAsk (ask d s r) (Some s) (Some r) = true
  <-> (s = "" \/ s = toSSML s) /\ (r = "" \/ r = toSSML r).
Proof.
  rewrite <- (isAsk_reprompt_ask d s r).
  unfold isAsk; rewrite head_ssml_ask.
  change (expectUserResponse (google (ask d s r))) with true.
  change (speech (ask d s r)) with s.
  cbn [Bool.eqb negb bind].
  destruct (truthy s) eqn:T.
  - rewrite <- (eqb_wrapped s T).
    destruct (String.eqb s (toSSML s)); cbn [negb bind].
    + rewrite try_catch_false_true; tauto.
    + cbn; split; [discriminate | intros [H _]; discriminate].
  - apply truthy_false in T; rewrite try_catch_false_true; tauto.
Qed.

End SpeechFacts.

(** C1, as the code has it.  After [tell(s)] the document's [speech] is [s]
    as given ([tell] does not wrap it), [expectUserResponse] is [false], the
    items are the old items with [{simpleResponse: {ssml: s}}] put in front,
    and [isTell(s)] holds exactly when [s] is empty or is its own wrapping
    [toSSML(s)]. *)
Theorem tell_stores_speech_verbatim (d : ResponseObj) (s : string) :
  speech (tell d s) = s
  /\ expectUserResponse (google (tell d s)) = false
  /\ items (richResponse (google (tell d s)))
     = simpleResponse s :: items (richResponse (google d))
  /\ (isTell (tell d s) (Some s) = true <-> (s = "" \/ s = toSSML s)).
Proof.
  split; [reflexivity|]; split; [reflexivity|]; split; [reflexivity|].
  apply SpeechFacts.isTell_tell.
Qed.

(** C1 fails as stated: after [tell("Hello")] on the default document the
    stored speech and the head item are ["Hello"], not [toSSML("Hello")], and
    [isTell("Hello")] is [false]. *)
Lemma tell_does_not_wrap :
  speech (tell (constructor None) "Hello") = "Hello"
  /\ toSSML "Hello" = "<speak>Hello</speak>"
  /\ nth_error (items (richResponse (google (tell (constructor None) "Hello")))) 0
     = Some (simpleResponse "Hello")
  /\ isTell (tell (constructor None) "Hello") (Some "Hello") = false.
Proof. repeat split. Qed.

(** C2, as the code has it.  After [ask(s, r)], [expectUserResponse] is
    [true], [noInputPrompts] is the one-element array [[{ssml: r}]] with [r]
    as given, and [isAsk(s, r)] holds exactly when each of [s] and [r] is
    empty or is its own wrapping. *)
Theorem ask_stores_reprompt_verbatim (d : ResponseObj) (s r : string) :
  expectUserResponse (google (ask d s r)) = true
  /\ noInputPrompts (google (ask d s r)) = Some [r]
  /\ (isAsk (ask d s r) (Some s) (Some r) = true
      <-> (s = "" \/ s = toSSML s) /\ (r = "" \/ r = toSSML r)).
Proof.
  split; [reflexivity|]; split; [reflexivity|].
  apply SpeechFacts.isAsk_ask.
Qed.

(** C2 fails as stated: after [ask("<speak>Hello</speak>", "Sorry?")] the
    reprompt is stored as ["Sorry?"], and [isAsk] with the same two arguments
    is [false], because it compares the stored reprompt with
    [toSSML("Sorry?")]. *)
Lemma isAsk_rejects_verbatim_reprompt :
  noInputPrompts (google (ask (constructor None) "<speak>Hello</speak>" "Sorry?"))
  = Some ["Sorry?"]
  /\ isAsk (ask (constructor None) "<speak>Hello</speak>" "Sorry?")
       (Some "<speak>Hello</speak>") (Some "Sorry?") = false.
Proof. split; reflexivity. Qed.

(** ** Faults *)

Module FaultFacts.

(** The predicates written with [try]/[catch] return a boolean on every
    document by construction; a fault inside them gives [false]. *)
Lemma isTell_fault (d : ResponseObj) (s : string) :
  expectUserResponse (google d) = false ->
  truthy s = true ->
  speech d = toSSML s ->
  head_ssml d = Throw TypeError ->
  isTell d (Some s) = false.
Proof.
  intros He Hs Hsp Hh; unfold isTell.
  now rewrite He, Hs, Hsp, String.eqb_refl, Hh.
Qed.

(** [items[0].simpleResponse.ssml] faults on an empty [items] and on a head
    item that is a card. *)
Lemma head_ssml_empty (d : ResponseObj) :
  items (richResponse (google d)) = [] -> head_ssml d = Throw TypeError.
Proof. unfold head_ssml; now intros ->. Qed.

Lemma head_ssml_card (d : ResponseObj) (c : BasicCard) (l : list ResponseItem) :
  items (richResponse (google d)) = basicCard c :: l ->
  head_ssml d = Throw TypeError.
Proof. unfold head_ssml; now intros ->. Qed.

Lemma getSpeechText_empty (d : ResponseObj) :
  items (richResponse (google d)) = [] -> getSpeechText d = Throw TypeError.
Proof. intros H; unfold getSpeechText; now rewrite (head_ssml_empty d H). Qed.

Lemma getSpeechText_card (d : ResponseObj) (c : BasicCard) (l : list ResponseItem) :
  items (richResponse (google d)) = basicCard c :: l ->
  getSpeechText d = Throw TypeError.
Proof. intros H; unfold getSpeechText; now rewrite (head_ssml_card d c l H). Qed.

(** The one case in which the fall-through [return ''] is reached. *)
Lemma getSpeechText_empty_ssml (d : ResponseObj) (l : list ResponseItem) :
  items (richResponse (google d)) = simpleResponse "" :: l ->
  getSpeechText d = Ok "".
Proof. unfold getSpeechText, head_ssml; now intros ->. Qed.

(** The guard [if (!context)] of [getContextOutParameter] never fires:
    whatever the document, the call does not end in [new Error(...)]. *)
Lemma getContextOutParameter_never_Error
      (d : ResponseObj) (n p message : string) :
  getContextOutParameter d n p <> Throw (Error message).
Proof.
  unfold getContextOutParameter, getContextOut.
  destruct (contextOut d) as [cs|]; cbn; [|discriminate].
  destruct (parameters (deref (getContextOut_loop cs 0 n))); cbn; discriminate.
Qed.

(** Without a [contextOut] the context predicates fault, and without a
    speech item at the head so does [speechTextContains]. *)
Lemma hasContextOutParameter_no_contextOut
      (d : ResponseObj) (n : string) (p : option string) (v : jsval) :
  contextOut d = None -> hasContextOutParameter d n p v = Throw TypeError.
Proof. unfold hasContextOutParameter, getContextOut; now intros ->. Qed.

Lemma speechTextContains_empty (d : ResponseObj) (str : StrArg) :
  items (richResponse (google d)) = [] ->
  speechTextContains d str = Throw TypeError.
Proof.
  intros H; unfold speechTextContains; now rewrite (getSpeechText_empty d H).
Qed.

(** With a [contextOut] array, [getContextOut] returns. *)
Lemma getContextOut_total (d : ResponseObj) (cs : list Context) (n : string) :
  contextOut d = Some cs -> exists r, getContextOut d n = Ok r.
Proof. unfold getContextOut; intros ->; cbn; eauto. Qed.

End FaultFacts.

(** C3, at the default document.  [hasContextOutParameter], [hasState] and
    [speechTextContains] have no [try]/[catch]: on the document the
    constructor builds (no [contextOut], empty [items]) each of them ends in a
    [TypeError], and so does [hasContextOutParameter] on a stored context that
    has no [parameters]; [isTell], [isAsk], [hasBasicCard] and [hasImageCard]
    answer [false] or [true] there. *)
Theorem uncaught_predicates_fault :
  hasContextOutParameter (constructor None) "session" (Some "STATE") (JStr "Start")
  = Throw TypeError
  /\ hasState (constructor None) (JStr "Start") = Throw TypeError
  /\ speechTextContains (constructor None) (a_string "Hello") = Throw TypeError
  /\ hasContextOutParameter
       (setContextOut (constructor None) [mkContext (Some "session") None])
       "session" (Some "STATE") (JStr "Start")
     = Throw TypeError
  /\ isTell (constructor None) (Some "Hello") = false
  /\ isAsk (constructor None) (Some "<speak></speak>") None = false
  /\ hasBasicCard (constructor None) None None = false
  /\ hasImageCard (constructor None) None None None None = false.
Proof. repeat split. Qed.

(** C4, at the failing inputs.  [getSpeechText] ends in a [TypeError] on the
    default document, whose [items] is empty, and on a document whose head
    item is a card; it returns the empty string only for a head item
    [{simpleResponse: {ssml: ''}}]. *)
Theorem getSpeechText_faults :
  getSpeechText (constructor None) = Throw TypeError
  /\ getSpeechText
       (addRichResponseItem (constructor None)
          (basicCard (mkBasicCard (Some "T") None (Some "Body") None None)))
     = Throw TypeError
  /\ getSpeechText (tell (constructor None) "") = Ok "".
Proof. repeat split. Qed.

(** C5, at the failing inputs.  On a document whose [contextOut] is the empty
    array, [getContextOut] returns the empty object and
    [getContextOutParameter] ends in a [TypeError]
    ([context.parameters] is [undefined]), not in the
    [Error('No context with name ...')] of its guard; on the default document,
    which has no [contextOut], both end in a [TypeError]. *)
Theorem getContextOutParameter_guard_is_dead :
  getContextOut (setContextOut (constructor None) []) "session"
  = Ok (fresh empty_object)
  /\ getContextOutParameter (setContextOut (constructor None) []) "session" "STATE"
     = Throw TypeError
  /\ getContextOut (constructor None) "session" = Throw TypeError
  /\ getContextOutParameter (constructor None) "session" "STATE" = Throw TypeError.
Proof. repeat split. Qed.

(** C10. The document the constructor builds is an ask and not a tell:
    [isAsk()] is [true] and [isTell()] is [false]. *)
Theorem default_document_is_ask :
  isAsk (constructor None) None None = true
  /\ isTell (constructor None) None = false
  /\ expectUserResponse (google (constructor None)) = true.
Proof. repeat split. Qed.

(** ** Contexts *)

Module ContextFacts.

(** The loop of [getContextOut] finds nothing among contexts none of which
    has the name. *)
Lemma getContextOut_loop_absent (cs : list Context) (i : nat) (n : string) :
  (forall c, In c cs -> name c <> Some n) ->
  getContextOut_loop cs i n = fresh empty_object.
Proof.
  revert i; induction cs as [|c cs IH]; intros i H; [reflexivity|].
  cbn [getContextOut_loop].
  assert (N : name_is c n = false).
  { unfold name_is; specialize (H c (or_introl eq_refl)).
    destruct (name c) as [m|]; [|reflexivity].
    apply String.eqb_neq; congruence. }
  rewrite N; apply IH; intros c' Hc'; apply H; now right.
Qed.

(** A context found by the loop is stored under the returned index and has
    the name. *)
Lemma getContextOut_loop_stored (cs : list Context) (i j : nat) (n : string)
      (c : Context) :
  getContextOut_loop cs i n = stored j c ->
  i <= j /\ nth_error cs (j - i) = Some c /\ name c = Some n.
Proof.
  revert i; induction cs as [|c0 cs IH]; intros i; cbn [getContextOut_loop].
  - discriminate.
  - destruct (name_is c0 n) eqn:N.
    + intros [= <- <-]; rewrite Nat.sub_diag; repeat split; [lia|].
      unfold name_is in N; destruct (name c0); [|discriminate].
      apply String.eqb_eq in N; now subst.
    + intros H; apply IH in H as (Hle & Hn & Hname).
      repeat split; [lia | | exact Hname].
      replace (j - i) with (S (j - S i)) by lia; exact Hn.
Qed.

(** For contrast, a parameter added to a context that is stored reaches the
    document. *)
Example addContextOutParameter_stored :
  addContextOutParameter set_plain_parameter
    (setContextOut (constructor None) [mkContext (Some "session") None])
    "session" "STATE" (JStr "Start")
  = Ok (setContextOut (constructor None)
          [mkContext (Some "session") (Some [("STATE", JStr "Start")])]).
Proof. reflexivity. Qed.

End ContextFacts.

(** C8. On a document with a [contextOut] array none of whose contexts is
    named [n], the lookup of [addContextOutParameter(n, p, v)] returns the
    empty object it has just created, and the call leaves the document as it
    was, whatever [_.set] does to that object. *)
Theorem addContextOutParameter_absent_is_noop
        (lodash_set : Context -> string -> jsval -> Context)
        (d : ResponseObj) (cs : list Context) (n p : string) (v : jsval) :
  contextOut d = Some cs ->
  (forall c, In c cs -> name c <> Some n) ->
  getContextOut d n = Ok (fresh empty_object)
  /\ addContextOutParameter lodash_set d n p v = Ok d.
Proof.
  intros Hcs Habs.
  assert (G : getContextOut d n = Ok (fresh empty_object)).
  { unfold getContextOut; rewrite Hcs; cbn.
    now rewrite (ContextFacts.getContextOut_loop_absent cs 0 n Habs). }
  split; [exact G|].
  unfold addContextOutParameter; now rewrite G.
Qed.

Lemma addContextOutParameter_absent_is_noop_witness :
  let d := setContextOut (constructor None)
             [mkContext (Some "other") (Some [("k", JStr "v")])] in
  getContextOut d "session" = Ok (fresh empty_object)
  /\ addContextOutParameter set_plain_parameter d "session" "STATE" (JStr "Start")
     = Ok d.
Proof.
  apply (addContextOutParameter_absent_is_noop set_plain_parameter _
           [mkContext (Some "other") (Some [("k", JStr "v")])]).
  - reflexivity.
  - intros c [<- | []]; discriminate.
Defined.

(** ** System intents *)

(** C9. After any sequence of [addList] and [addCarousel] calls the
    document's [systemIntent] is the one the last call built: intent
    [actions.intent.OPTION], the last call's collection under [listSelect]
    or [carouselSelect] according to the call, and ['@type']
    [type.googleapis.com/google.actions.v2.OptionValueSpec]. *)
Theorem systemIntent_last_call_wins
        (d : ResponseObj) (cs : list OptionCall) (c : OptionCall) :
  systemIntent (google (run_calls d (cs ++ [c])%list))
  = Some (mkSystemIntent "actions.intent.OPTION"
            (match c with
             | call_addList l =>
                 mkIntentData listSelect l
                   "type.googleapis.com/google.actions.v2.OptionValueSpec"
             | call_addCarousel l =>
                 mkIntentData carouselSelect l
                   "type.googleapis.com/google.actions.v2.OptionValueSpec"
             end)).
Proof.
  unfold run_calls; rewrite fold_left_app; cbn [fold_left].
  now destruct c.
Qed.

(** ** Permissions *)

Module UniqFacts.

Lemma existsb_eqb_In (v : string) (l : list string) :
  existsb (String.eqb v) l = true <-> In v l.
Proof.
  rewrite existsb_exists; split.
  - intros [x [Hx Hv]]; apply String.eqb_eq in Hv; now subst.
  - intros H; exists v; split; [exact H | apply String.eqb_refl].
Qed.

Lemma existsb_eqb_not_In (v : string) (l : list string) :
  existsb (String.eqb v) l = false <-> ~ In v l.
Proof.
  rewrite <- existsb_eqb_In; destruct (existsb (String.eqb v) l); split; congruence.
Qed.

(** The pass over a concatenation is the pass over its second part started
    from the result of the first. *)
Lemma baseUniq_app (res a1 a2 : list string) :
  baseUniq res (a1 ++ a2)%list = baseUniq (baseUniq res a1) a2.
Proof.
  revert res; induction a1 as [|v a1 IH]; intros res; [reflexivity|].
  cbn [baseUniq app]; destruct (existsb (String.eqb v) res); apply IH.
Qed.

Lemma baseUniq_NoDup (res arr : list string) :
  NoDup res -> NoDup (baseUniq res arr).
Proof.
  revert res; induction arr as [|v arr IH]; intros res H; [exact H|].
  cbn [baseUniq]; destruct (existsb (String.eqb v) res) eqn:E.
  - now apply IH.
  - apply IH. apply existsb_eqb_not_In in E.
    apply NoDup_app; [exact H | constructor; [intros [] | constructor] |].
    intros x Hx [<- | []]; contradiction.
Qed.

Lemma baseUniq_In (x : string) (res arr : list string) :
  In x (baseUniq res arr) <-> In x res \/ In x arr.
Proof.
  revert res; induction arr as [|v arr IH]; intros res; cbn [baseUniq].
  - cbn; tauto.
  - destruct (existsb (String.eqb v) res) eqn:E; rewrite IH.
    + apply existsb_eqb_In in E; cbn; intuition (subst; auto).
    + rewrite in_app_iff; cbn; tauto.
Qed.

(** Elements without a repetition all survive, in their order. *)
Lemma baseUniq_NoDup_id (res arr : list string) :
  NoDup (res ++ arr)%list -> baseUniq res arr = (res ++ arr)%list.
Proof.
  revert res; induction arr as [|v arr IH]; intros res H; cbn [baseUniq].
  - now rewrite app_nil_r.
  - assert (N : ~ In v res).
    { intros Hv; apply NoDup_remove_2 in H; apply H, in_or_app; now left. }
    apply existsb_eqb_not_In in N; rewrite N.
    change (v :: arr) with ([v] ++ arr)%list in *; rewrite app_assoc in *.
    now apply IH.
Qed.

Lemma uniq_NoDup (l : list string) : NoDup (uniq l).
Proof. apply baseUniq_NoDup; constructor. Qed.

Lemma uniq_In (x : string) (l : list string) : In x (uniq l) <-> In x l.
Proof. unfold uniq; rewrite baseUniq_In; cbn; tauto. Qed.

Lemma uniq_NoDup_id (l : list string) : NoDup l -> uniq l = l.
Proof. intros H; now apply (baseUniq_NoDup_id [] l). Qed.

(** Pushing one more value on an array and deduplicating. *)
Lemma uniq_push (l : list string) (p : string) :
  uniq (l ++ [p])%list
  = if existsb (String.eqb p) (uniq l) then uniq l else (uniq l ++ [p])%list.
Proof. unfold uniq; now rewrite baseUniq_app. Qed.

Lemma uniq_uniq_push (l : list string) (p : string) :
  uniq (uniq l ++ [p])%list = uniq (l ++ [p])%list.
Proof.
  rewrite !uniq_push, (uniq_NoDup_id (uniq l)); [reflexivity | apply uniq_NoDup].
Qed.

Lemma count_occ_uniq (l : list string) (p : string) :
  In p l -> count_occ string_dec (uniq l) p = 1.
Proof.
  intros H.
  pose proof (proj1 (NoDup_count_occ string_dec (uniq l)) (uniq_NoDup l) p).
  pose proof (proj1 (count_occ_In string_dec (uniq l) p) (proj2 (uniq_In p l) H)).
  lia.
Qed.

End UniqFacts.

Module PermissionFacts.
Import UniqFacts.

Lemma getPermissions_set (d : ResponseObj) (p : string) :
  getPermissions (setPermissionToResponse d p)
  = uniq (getPermissions d ++ [p])%list.
Proof. reflexivity. Qed.

(** Two calls: the permissions are the old ones with both values pushed,
    deduplicated once. *)
Lemma getPermissions_set_set (d : ResponseObj) (p q : string) :
  getPermissions (setPermissionToResponse (setPermissionToResponse d p) q)
  = uniq (getPermissions d ++ [p; q])%list.
Proof.
  rewrite !getPermissions_set, uniq_uniq_push.
  now rewrite <- app_assoc.
Qed.

End PermissionFacts.

(** C7, as the code has it.  For every document, the permissions after two
    calls are the old permissions with both values pushed and deduplicated
    keeping first occurrences; calling twice with the same value leaves
    exactly one occurrence of it; and when the second of two distinct values
    was not requested before, the first stands before the second, which comes
    last. *)
Theorem setPermissionToResponse_first_request_order
        (d : ResponseObj) (p q : string) :
  getPermissions (setPermissionToResponse (setPermissionToResponse d p) q)
  = uniq (getPermissions d ++ [p; q])%list
  /\ count_occ string_dec
       (getPermissions (setPermissionToResponse (setPermissionToResponse d p) p)) p
     = 1
  /\ (p <> q ->
      ~ In q (getPermissions d) ->
      exists l1 l2,
        getPermissions (setPermissionToResponse (setPermissionToResponse d p) q)
        = (l1 ++ p :: l2 ++ [q])%list
        /\ ~ In p l2 /\ ~ In q l1 /\ ~ In q l2).
Proof.
  rewrite !PermissionFacts.getPermissions_set_set.
  split; [reflexivity|].
  split; [apply UniqFacts.count_occ_uniq, in_or_app; right; now left|].
  intros Hpq Hq.
  pose proof (UniqFacts.uniq_NoDup (getPermissions d ++ [p; q])%list) as ND.
  change [p; q] with ([p] ++ [q])%list in *.
  rewrite app_assoc, UniqFacts.uniq_push in *.
  assert (N : ~ In q (uniq (getPermissions d ++ [p])%list)).
  { rewrite UniqFacts.uniq_In, in_app_iff; intros [H | [H | []]]; auto. }
  pose proof N as N'.
  apply UniqFacts.existsb_eqb_not_In in N'; rewrite N' in *.
  assert (I : In p (uniq (getPermissions d ++ [p])%list)).
  { apply UniqFacts.uniq_In, in_or_app; right; now left. }
  apply in_split in I as (l1 & l2 & E); rewrite E in *.
  exists l1, l2; rewrite <- app_assoc; split; [reflexivity|].
  rewrite in_app_iff in N; cbn in N.
  rewrite <- app_assoc in ND; apply NoDup_remove_2 in ND.
  rewrite !in_app_iff in ND.
  repeat split; intros H; [apply ND | apply N | apply N]; tauto.
Qed.

Lemma setPermissionToResponse_first_request_order_witness :
  "NAME" <> "DEVICE_PRECISE_LOCATION"
  /\ ~ In "DEVICE_PRECISE_LOCATION" (getPermissions (constructor None))
  /\ getPermissions (setDevicePreciseLocationPermission
                       (setNamePermission (constructor None)))
     = ["NAME"; "DEVICE_PRECISE_LOCATION"]
  /\ getPermissions (setNamePermission (setNamePermission (constructor None)))
     = ["NAME"]
  /\ exists l1 l2,
       getPermissions (setDevicePreciseLocationPermission
                         (setNamePermission (constructor None)))
       = (l1 ++ "NAME" :: l2 ++ ["DEVICE_PRECISE_LOCATION"])%list
       /\ ~ In "NAME" l2
       /\ ~ In "DEVICE_PRECISE_LOCATION" l1
       /\ ~ In "DEVICE_PRECISE_LOCATION" l2.
Proof.
  split; [discriminate|]; split; [intros []|].
  split; [reflexivity|]; split; [reflexivity|].
  apply (proj2 (proj2 (setPermissionToResponse_first_request_order
                         (constructor None)
                         PERMISSIONS_ENUM.NAME
                         PERMISSIONS_ENUM.DEVICE_PRECISE_LOCATION))).
  - discriminate.
  - intros [].
Defined.

(** C7 fails as stated: on a document that already requests the precise
    location, requesting the name and then the precise location leaves the
    precise location first, although it was the second of the two calls. *)
Lemma permission_order_is_first_request :
  getPermissions (setDevicePreciseLocationPermission (constructor None))
  = ["DEVICE_PRECISE_LOCATION"]
  /\ getPermissions
       (setDevicePreciseLocationPermission
          (setNamePermission
             (setDevicePreciseLocationPermission (constructor None))))
     = ["DEVICE_PRECISE_LOCATION"; "NAME"].
Proof. split; reflexivity. Qed.

(** ** Cards *)

Module CardFacts.

Lemma truthy_true (s : string) : truthy s = true <-> s <> "".
Proof.
  unfold truthy; rewrite negb_true_iff; apply String.eqb_neq.
Qed.

Lemma strict_neq_false (p : option string) (s : string) :
  strict_neq p s = false <-> p = Some s.
Proof.
  destruct p as [x|]; cbn; [|split; discriminate].
  rewrite negb_false_iff, String.eqb_eq; split; congruence.
Qed.

(** Two guarded comparisons in a [try] block that ends in [return true]. *)
Lemma two_guards (r1 r2 : result bool) :
  try_catch_false
    (no <- r1 ;; if no then Ok false
                 else no <- r2 ;; if no then Ok false else Ok true) = true
  <-> r1 = Ok false /\ r2 = Ok false.
Proof.
  destruct r1 as [[|]|e1], r2 as [[|]|e2]; cbn; split;
    try discriminate; try (intros [? ?]; discriminate); auto.
Qed.

(** The guarded comparison on a property that can be read. *)
Lemma differs_passes (arg prop : option string) :
  differs arg (Ok prop) = Ok false <-> arg_matches arg prop.
Proof.
  unfold differs, arg_matches; destruct arg as [s|]; cbn.
  - destruct (truthy s) eqn:T; cbn.
    + split.
      * intros [= H]; right; now apply strict_neq_false.
      * intros [H | H]; [discriminate|].
        apply strict_neq_false in H; now rewrite H.
    + split; auto.
  - split; auto.
Qed.

(** The guarded comparison on a property of the card's image. *)
Lemma differs_image_passes (arg : option string) (c : BasicCard)
      (field : Image -> string) :
  differs arg (img <- read (image c) ;; Ok (Some (field img))) = Ok false
  <-> image_matches arg c field.
Proof.
  unfold image_matches; destruct (image c) as [img|]; cbn [read bind].
  - rewrite differs_passes; unfold arg_matches; split.
    + intros [H | H]; [now left | right; now exists img].
    + intros [H | (img' & [= <-] & H)]; [now left | now right].
  - unfold differs; destruct arg as [s|]; cbn; [destruct (truthy s); cbn|].
    + split; [discriminate | intros [H | (img & H & _)]; discriminate].
    + split; auto.
    + split; auto.
Qed.

Lemma basicCards_of_app (l1 l2 : list ResponseItem) :
  basicCards_of (l1 ++ l2)%list = (basicCards_of l1 ++ basicCards_of l2)%list.
Proof. apply flat_map_app. Qed.

(** [hasBasicCard] is decided by the first card among the items. *)
Lemma hasBasicCard_cards (d : ResponseObj) (t f : option string) :
  hasBasicCard d t f = true
  <-> exists c rest,
        basicCards_of (items (richResponse (google d))) = c :: rest
        /\ arg_matches t (title c) /\ arg_matches f (formattedText c).
Proof.
  unfold hasBasicCard.
  destruct (basicCards_of (items (richResponse (google d)))) as [|c rest].
  - cbn; split; [discriminate | intros (c & rest & H & _); discriminate].
  - cbn [List.length Nat.eqb index nth_error read bind].
    rewrite two_guards, !differs_passes; split.
    + intros [H1 H2]; now exists c, rest.
    + intros (c' & rest' & [= <- <-] & H1 & H2); now split.
Qed.

(** So is [hasImageCard]. *)
Lemma hasImageCard_cards (d : ResponseObj) (t f u a : option string) :
  hasImageCard d t f u a = true
  <-> exists c rest,
        basicCards_of (items (richResponse (google d))) = c :: rest
        /\ arg_matches t (title c) /\ arg_matches f (formattedText c)
        /\ image_matches u c url /\ image_matches a c accessibilityText.
Proof.
  unfold hasImageCard.
  destruct (hasBasicCard d t f) eqn:HB; cbn [negb].
  - apply hasBasicCard_cards in HB as (c & rest & E & H1 & H2).
    rewrite E; cbn [List.length Nat.eqb index nth_error read bind].
    rewrite two_guards, !differs_image_passes; split.
    + intros [H3 H4]; now exists c, rest.
    + intros (c' & rest' & [= <- <-] & _ & _ & H3 & H4); now split.
  - split; [discriminate|].
    intros (c & rest & E & H1 & H2 & _).
    assert (hasBasicCard d t f = true) by (apply hasBasicCard_cards; now exists c, rest).
    congruence.
Qed.

Lemma bool_eq_iff (a b : bool) : (a = true <-> b = true) -> a = b.
Proof. destruct a, b; intros [H1 H2]; auto; symmetry; auto. Qed.

Lemma arg_matches_Some (s p : string) :
  arg_matches (Some s) (Some p) <-> s = "" \/ s = p.
Proof.
  unfold arg_matches; cbn; split.
  - intros [H | [= ->]]; [left; now apply SpeechFacts.truthy_false | now right].
  - intros [-> | ->]; [now left | now right].
Qed.

End CardFacts.

Module CardBuilderFacts.
Import CardFacts.

Lemma addBasicCard_Ok (d : ResponseObj) (t f : string) :
  t <> "" -> f <> "" ->
  addBasicCard d t f
  = Ok (addRichResponseItem d
          (basicCard (mkBasicCard (Some t) None (Some f) None None))).
Proof.
  intros Ht Hf; apply truthy_true in Ht, Hf.
  unfold addBasicCard, BasicCardSetters.setTitle, BasicCardSetters.setFormattedText.
  now rewrite Ht, Hf.
Qed.

Lemma addImageCard_Ok (d : ResponseObj) (t f u a : string) :
  t <> "" -> f <> "" -> u <> "" -> a <> "" ->
  addImageCard d t f u a
  = Ok (addRichResponseItem d
          (basicCard (mkBasicCard (Some t) None (Some f)
                        (Some (mkImage u a None None)) None))).
Proof.
  intros Ht Hf Hu Ha; apply truthy_true in Ht, Hf, Hu, Ha.
  unfold addImageCard, BasicCardSetters.setTitle,
    BasicCardSetters.setFormattedText, BasicCardSetters.setImage.
  rewrite Ht, Hf; cbn -[truthy]; rewrite Hu; cbn -[truthy]; now rewrite ?Hu, Ha.
Qed.

Lemma cards_after_append (d : ResponseObj) (c : BasicCard) :
  basicCards_of (items (richResponse (google (addRichResponseItem d (basicCard c)))))
  = (basicCards_of (items (richResponse (google d))) ++ [c])%list.
Proof. cbn; now rewrite basicCards_of_app. Qed.

End CardBuilderFacts.

(** X1. On a document without a card, [addBasicCard(t, f)] with non-empty
    [t] and [f] succeeds, and afterwards [hasBasicCard(t', f')] holds exactly
    when each of [t'] and [f'] is empty or is the value that was added. *)
Theorem addBasicCard_then_hasBasicCard (d : ResponseObj) (t f : string) :
  basicCards_of (items (richResponse (google d))) = [] ->
  t <> "" -> f <> "" ->
  exists d',
    addBasicCard d t f = Ok d'
    /\ forall t' f',
         hasBasicCard d' (Some t') (Some f') = true
         <-> (t' = "" \/ t' = t) /\ (f' = "" \/ f' = f).
Proof.
  intros Hc Ht Hf; eexists; split;
    [apply CardBuilderFacts.addBasicCard_Ok; assumption|].
  intros t' f'; rewrite CardFacts.hasBasicCard_cards,
    CardBuilderFacts.cards_after_append, Hc; cbn [app].
  rewrite <- !CardFacts.arg_matches_Some; split.
  - intros (c & rest & [= <- <-] & H1 & H2); now split.
  - intros [H1 H2]; eexists; eexists; split; [reflexivity | now split].
Qed.

Lemma addBasicCard_then_hasBasicCard_witness :
  exists d',
    addBasicCard (tell (constructor None) "<speak>Hi</speak>") "T" "Body" = Ok d'
    /\ forall t' f',
         hasBasicCard d' (Some t') (Some f') = true
         <-> (t' = "" \/ t' = "T") /\ (f' = "" \/ f' = "Body").
Proof.
  apply (addBasicCard_then_hasBasicCard
           (tell (constructor None) "<speak>Hi</speak>") "T" "Body");
    [reflexivity | discriminate | discriminate].
Defined.

(** X2. [addBasicCard(t, f)] throws ['Title cannot be empty'] for an empty
    [t] whatever [f] is, throws ['FormattedText cannot be empty'] for a
    non-empty [t] and an empty [f], and otherwise appends the card behind all
    items, leaving the rest of the document as it was. *)
Theorem addBasicCard_validation (d : ResponseObj) (t f : string) :
  (t = "" -> addBasicCard d t f = Throw (Error "Title cannot be empty"))
  /\ (t <> "" -> f = "" ->
      addBasicCard d t f = Throw (Error "FormattedText cannot be empty"))
  /\ (t <> "" -> f <> "" ->
      exists d',
        addBasicCard d t f = Ok d'
        /\ items (richResponse (google d'))
           = (items (richResponse (google d))
              ++ [basicCard (mkBasicCard (Some t) None (Some f) None None)])%list
        /\ speech d' = speech d
        /\ expectUserResponse (google d') = expectUserResponse (google d)
        /\ contextOut d' = contextOut d).
Proof.
  split; [|split].
  - now intros ->.
  - intros Ht ->; apply CardFacts.truthy_true in Ht.
    unfold addBasicCard, BasicCardSetters.setTitle; now rewrite Ht.
  - intros Ht Hf; eexists; split;
      [apply CardBuilderFacts.addBasicCard_Ok; assumption|].
    repeat split.
Qed.

(** X3. [hasBasicCard] looks at the first card only: once the document has
    a card, appending another card does not change its answer, and neither
    does a [tell] or an [ask], which put a speech item in front. *)
Theorem hasBasicCard_first_card_decides
        (d : ResponseObj) (c : BasicCard) (t f : option string) (s r : string) :
  basicCards_of (items (richResponse (google d))) <> [] ->
  hasBasicCard (addRichResponseItem d (basicCard c)) t f = hasBasicCard d t f
  /\ hasBasicCard (tell d s) t f = hasBasicCard d t f
  /\ hasBasicCard (ask d s r) t f = hasBasicCard d t f.
Proof.
  intros Hne; split; [|split; reflexivity].
  apply CardFacts.bool_eq_iff.
  rewrite !CardFacts.hasBasicCard_cards, CardBuilderFacts.cards_after_append.
  destruct (basicCards_of (items (richResponse (google d)))) as [|c0 rest0];
    [contradiction|]; cbn [app]; split.
  - intros (c' & rest' & [= <- <-] & H); now exists c0, rest0.
  - intros (c' & rest' & [= <- <-] & H); eexists; eexists; split; [reflexivity | exact H].
Qed.

Lemma hasBasicCard_first_card_decides_witness :
  let d := addRichResponseItem (constructor None)
             (basicCard (mkBasicCard (Some "T") None (Some "Body") None None)) in
  let c := mkBasicCard (Some "Other") None (Some "Text") None None in
  hasBasicCard (addRichResponseItem d (basicCard c)) (Some "Other") None
  = hasBasicCard d (Some "Other") None
  /\ hasBasicCard (tell d "hi") (Some "Other") None = hasBasicCard d (Some "Other") None
  /\ hasBasicCard (ask d "hi" "again") (Some "Other") None
     = hasBasicCard d (Some "Other") None.
Proof.
  apply (hasBasicCard_first_card_decides
           (addRichResponseItem (constructor None)
              (basicCard (mkBasicCard (Some "T") None (Some "Body") None None)))).
  discriminate.
Defined.

(** X4. On a document without a card, [addImageCard(t, f, u, a)] with four
    non-empty arguments succeeds, and afterwards
    [hasImageCard(t', f', u', a')] holds exactly when each argument is empty
    or is the value that was added; a non-empty argument that differs makes
    it [false]. *)
Theorem addImageCard_then_hasImageCard (d : ResponseObj) (t f u a : string) :
  basicCards_of (items (richResponse (google d))) = [] ->
  t <> "" -> f <> "" -> u <> "" -> a <> "" ->
  exists d',
    addImageCard d t f u a = Ok d'
    /\ forall t' f' u' a',
         hasImageCard d' (Some t') (Some f') (Some u') (Some a') = true
         <-> (t' = "" \/ t' = t) /\ (f' = "" \/ f' = f)
             /\ (u' = "" \/ u' = u) /\ (a' = "" \/ a' = a).
Proof.
  intros Hc Ht Hf Hu Ha; eexists; split;
    [apply CardBuilderFacts.addImageCard_Ok; assumption|].
  intros t' f' u' a'; rewrite CardFacts.hasImageCard_cards,
    CardBuilderFacts.cards_after_append, Hc; cbn [app].
  rewrite <- !CardFacts.arg_matches_Some.
  assert (I : forall (x y : string) (fld : Image -> string) c img,
             image c = Some img -> fld img = y ->
             image_matches (Some x) c fld <-> arg_matches (Some x) (Some y)).
  { intros x y fld c img Hi Hy; unfold image_matches, arg_matches; split.
    - intros [H | (img' & Hi' & H)]; [now left | right].
      rewrite Hi in Hi'; injection Hi' as <-; now rewrite <- Hy.
    - intros [H | H]; [now left | right; exists img; split; [exact Hi|]].
      now rewrite Hy. }
  split.
  - intros (c & rest & [= <- <-] & H1 & H2 & H3 & H4).
    repeat split; [exact H1 | exact H2 | |].
    + eapply I in H3; [exact H3 | reflexivity | reflexivity].
    + eapply I in H4; [exact H4 | reflexivity | reflexivity].
  - intros (H1 & H2 & H3 & H4); eexists; eexists; split; [reflexivity|].
    repeat split; [exact H1 | exact H2 | |].
    + eapply I; [reflexivity | reflexivity | exact H3].
    + eapply I; [reflexivity | reflexivity | exact H4].
Qed.

Lemma addImageCard_then_hasImageCard_witness :
  exists d',
    addImageCard (constructor None) "T" "Body" "http://x/i.png" "alt" = Ok d'
    /\ forall t' f' u' a',
         hasImageCard d' (Some t') (Some f') (Some u') (Some a') = true
         <-> (t' = "" \/ t' = "T") /\ (f' = "" \/ f' = "Body")
             /\ (u' = "" \/ u' = "http://x/i.png") /\ (a' = "" \/ a' = "alt").
Proof.
  apply (addImageCard_then_hasImageCard (constructor None)
           "T" "Body" "http://x/i.png" "alt");
    [reflexivity | discriminate | discriminate | discriminate | discriminate].
Defined.

(** X5. Without image arguments (omitted or empty) [hasImageCard] is
    [hasBasicCard]: it is [true] also for a card that has no image.  With a
    non-empty image argument it is [false] whenever the first card has no
    image, the fault of reading [image.url] being caught. *)
Theorem hasImageCard_without_image (d : ResponseObj) (t f u a : option string) :
  (truthy_arg u = false -> truthy_arg a = false ->
   hasImageCard d t f u a = hasBasicCard d t f)
  /\ (forall c rest,
        basicCards_of (items (richResponse (google d))) = c :: rest ->
        image c = None ->
        truthy_arg u = true \/ truthy_arg a = true ->
        hasImageCard d t f u a = false).
Proof.
  split.
  - intros Hu Ha; apply CardFacts.bool_eq_iff.
    rewrite CardFacts.hasImageCard_cards, CardFacts.hasBasicCard_cards; split.
    + intros (c & rest & E & H1 & H2 & _); now exists c, rest.
    + intros (c & rest & E & H1 & H2); exists c, rest.
      repeat split; try assumption; now left.
  - intros c rest E Hi Hua.
    destruct (hasImageCard d t f u a) eqn:H; [|reflexivity].
    apply CardFacts.hasImageCard_cards in H
      as (c' & rest' & E' & _ & _ & [H3 | (img & H3 & _)] & [H4 | (img' & H4 & _)]);
      rewrite E in E'; injection E' as <- <-; destruct Hua; congruence.
Qed.

(** X6. With an empty image URL [addImageCard] is [addBasicCard]: no image
    is set and the accessibility text is not looked at.  With a non-empty
    URL and an empty accessibility text it throws. *)
Theorem addImageCard_without_url (d : ResponseObj) (t f u a : string) :
  addImageCard d t f "" a = addBasicCard d t f
  /\ (t <> "" -> f <> "" -> u <> "" ->
      addImageCard d t f u "" = Throw (Error "accessibilityText cannot be empty")).
Proof.
  split.
  - unfold addImageCard, addBasicCard.
    destruct (BasicCardSetters.setTitle new_BasicCard t) as [c|e]; [|reflexivity].
    cbn [bind].
    destruct (BasicCardSetters.setFormattedText c f) as [c'|e]; reflexivity.
  - intros Ht Hf Hu; apply CardFacts.truthy_true in Ht, Hf, Hu.
    unfold addImageCard, BasicCardSetters.setTitle,
      BasicCardSetters.setFormattedText, BasicCardSetters.setImage.
    rewrite Ht, Hf; cbn -[truthy]; rewrite Hu; cbn -[truthy]; now rewrite ?Hu.
Qed.

(** ** Speech *)

Module AudioFacts.
Import Str StrFacts.

(** A text without the pattern is copied up to a following character that
    the tail of the pattern does not contain. *)
Lemma remove_all_before (a : ascii) (p u : string) (b : ascii) (v : string) :
  includes (String a p) u = false ->
  has_char b p = false ->
  remove_all (String a p) (u ++ String b v)
  = u ++ remove_all (String a p) (String b v).
Proof.
  intros Hu Hb; unfold remove_all; induction u as [|c u IH]; [reflexivity|].
  apply includes_cons_false in Hu as [H1 H2].
  change (String c u ++ String b v) with (String c (u ++ String b v)) at 1.
  cbn [remove_from].
  change (String c (u ++ String b v)) with (String c u ++ String b v).
  rewrite (startsWith_cons_stops a p c u v b Hb), H1.
  cbn [append]; f_equal; auto.
Qed.

Lemma append_assoc (a b c : string) : (a ++ b) ++ c = a ++ (b ++ c).
Proof. induction a as [|x a IH]; cbn; [reflexivity | now rewrite IH]. Qed.

Lemma remove_open_audio (u f : string) :
  includes speak_open u = false -> includes speak_open f = false ->
  remove_all speak_open (audio_speech u f)
  = "<audio src=" ++ dquote ++ u ++ dquote ++ ">" ++ f ++ "</audio></speak>".
Proof.
  intros Hu Hf.
  change (audio_speech u f)
    with (speak_open ++ "<audio src=" ++ dquote ++ (u ++ String (ascii_of_nat 34)
            (">" ++ f ++ String "<" "/audio></speak>"))).
  rewrite SpeechMarkupFacts.remove_open_wrapped.
  change (remove_all speak_open
            ("<audio src=" ++ dquote ++ (u ++ String (ascii_of_nat 34)
               (">" ++ f ++ String "<" "/audio></speak>"))))
    with ("<audio src=" ++ dquote ++
          remove_all speak_open (u ++ String (ascii_of_nat 34)
               (">" ++ f ++ String "<" "/audio></speak>"))).
  unfold speak_open in *.
  rewrite (remove_all_before _ _ u (ascii_of_nat 34) _ Hu eq_refl).
  change (remove_all "<speak>" (String (ascii_of_nat 34)
               (">" ++ f ++ String "<" "/audio></speak>")))
    with (dquote ++ ">" ++ remove_all "<speak>" (f ++ String "<" "/audio></speak>")).
  now rewrite (remove_all_before _ _ f "<"%char _ Hf eq_refl).
Qed.

Lemma remove_close_audio (u f : string) :
  includes speak_close u = false -> includes speak_close f = false ->
  remove_all speak_close
    ("<audio src=" ++ dquote ++ u ++ dquote ++ ">" ++ f ++ "</audio></speak>")
  = "<audio src=" ++ dquote ++ u ++ dquote ++ ">" ++ f ++ "</audio>".
Proof.
  intros Hu Hf.
  change (remove_all speak_close
            ("<audio src=" ++ dquote ++ u ++ dquote ++ ">" ++ f ++ "</audio></speak>"))
    with ("<audio src=" ++ dquote ++
          remove_all speak_close (u ++ String (ascii_of_nat 34)
               (">" ++ f ++ String "<" "/audio></speak>"))).
  unfold speak_close in *.
  rewrite (remove_all_before _ _ u (ascii_of_nat 34) _ Hu eq_refl).
  change (remove_all "</speak>" (String (ascii_of_nat 34)
               (">" ++ f ++ String "<" "/audio></speak>")))
    with (dquote ++ ">" ++ remove_all "</speak>" (f ++ String "<" "/audio></speak>")).
  now rewrite (remove_all_before _ _ f "<"%char _ Hf eq_refl).
Qed.

(** The tags of an audio speech are its envelope only. *)
Lemma removeSpeakTags_audio (u f : string) :
  has_speak_tag u = false -> has_speak_tag f = false ->
  removeSpeakTags (audio_speech u f)
  = "<audio src=" ++ dquote ++ u ++ dquote ++ ">" ++ f ++ "</audio>".
Proof.
  unfold has_speak_tag; intros Hu Hf.
  apply orb_false_iff in Hu as [Huo Huc], Hf as [Hfo Hfc].
  unfold removeSpeakTags.
  now rewrite remove_open_audio, remove_close_audio.
Qed.

Lemma toSSML_audio (u f : string) :
  has_speak_tag u = false -> has_speak_tag f = false ->
  toSSML (audio_speech u f) = audio_speech u f.
Proof.
  intros Hu Hf.
  rewrite SpeechMarkupFacts.toSSML_removeSpeakTags, removeSpeakTags_audio
    by assumption.
  now rewrite !append_assoc.
Qed.

(** The speech text after [tell] and [ask] is the speech without its tags;
    an empty speech gives the empty text through the other branch. *)
Lemma getSpeechText_tell (d : ResponseObj) (s : string) :
  getSpeechText (tell d s) = Ok (removeSpeakTags s).
Proof.
  unfold getSpeechText; rewrite SpeechFacts.head_ssml_tell; cbn -[truthy removeSpeakTags].
  destruct (truthy s) eqn:T; [reflexivity|].
  apply SpeechFacts.truthy_false in T; now subst.
Qed.

Lemma getSpeechText_ask (d : ResponseObj) (s r : string) :
  getSpeechText (ask d s r) = Ok (removeSpeakTags s).
Proof.
  unfold getSpeechText; rewrite SpeechFacts.head_ssml_ask; cbn -[truthy removeSpeakTags].
  destruct (truthy s) eqn:T; [reflexivity|].
  apply SpeechFacts.truthy_false in T; now subst.
Qed.

Lemma removeSpeakTags_toSSML (t : string) :
  has_speak_tag t = false -> removeSpeakTags (toSSML t) = t.
Proof.
  intros H.
  rewrite SpeechMarkupFacts.toSSML_removeSpeakTags,
    (SpeechMarkupFacts.removeSpeakTags_plain _ H).
  now apply SpeechMarkupFacts.removeSpeakTags_wrapped.
Qed.

End AudioFacts.

(** X7. For an audio URL and a fallback text without speak tags, [play]
    followed by [isPlay] with the same arguments is [true]; the document is
    then a tell and not an ask, and its speech text is the audio tag without
    the envelope. *)
Theorem play_then_isPlay (d : ResponseObj) (u f : string) :
  has_speak_tag u = false ->
  has_speak_tag f = false ->
  isPlay (play d u f) u f = true
  /\ isTell (play d u f) None = true
  /\ isAsk (play d u f) None None = false
  /\ getSpeechText (play d u f)
     = Ok ("<audio src=" ++ dquote ++ u ++ dquote ++ ">" ++ f ++ "</audio>").
Proof.
  intros Hu Hf; split; [|split; [reflexivity | split; [reflexivity|]]].
  - unfold isPlay, play; apply SpeechFacts.isTell_tell; right.
    symmetry; now apply AudioFacts.toSSML_audio.
  - unfold play; rewrite AudioFacts.getSpeechText_tell.
    now rewrite AudioFacts.removeSpeakTags_audio.
Qed.

Lemma play_then_isPlay_witness :
  isPlay (play (constructor None) "https://x.org/a.mp3" "a sound")
    "https://x.org/a.mp3" "a sound" = true
  /\ isTell (play (constructor None) "https://x.org/a.mp3" "a sound") None = true
  /\ isAsk (play (constructor None) "https://x.org/a.mp3" "a sound") None None = false
  /\ getSpeechText (play (constructor None) "https://x.org/a.mp3" "a sound")
     = Ok ("<audio src=" ++ dquote ++ "https://x.org/a.mp3" ++ dquote ++ ">"
           ++ "a sound" ++ "</audio>").
Proof.
  apply (play_then_isPlay (constructor None) "https://x.org/a.mp3" "a sound");
    reflexivity.
Defined.

(** X8. After [tell] or [ask] with the wrapping of a text [t] without speak
    tags, [getSpeechText] returns [t], and [speechTextContains(sub)] says
    whether [sub] is a substring of [t]. *)
Theorem getSpeechText_after_wrapped_speech (d : ResponseObj) (t r : string) :
  has_speak_tag t = false ->
  getSpeechText (tell d (toSSML t)) = Ok t
  /\ getSpeechText (ask d (toSSML t) r) = Ok t
  /\ forall sub,
       speechTextContains (tell d (toSSML t)) (a_string sub)
       = Ok (Str.includes sub t).
Proof.
  intros H.
  assert (G : getSpeechText (tell d (toSSML t)) = Ok t).
  { now rewrite AudioFacts.getSpeechText_tell, AudioFacts.removeSpeakTags_toSSML. }
  split; [exact G | split].
  - now rewrite AudioFacts.getSpeechText_ask, AudioFacts.removeSpeakTags_toSSML.
  - intros sub; unfold speechTextContains; now rewrite G.
Qed.

Lemma getSpeechText_after_wrapped_speech_witness :
  getSpeechText (tell (constructor None) (toSSML "Hello World")) = Ok "Hello World"
  /\ getSpeechText (ask (constructor None) (toSSML "Hello World") "Again?")
     = Ok "Hello World"
  /\ forall sub,
       speechTextContains (tell (constructor None) (toSSML "Hello World")) (a_string sub)
       = Ok (Str.includes sub "Hello World").
Proof.
  apply (getSpeechText_after_wrapped_speech (constructor None) "Hello World" "Again?").
  reflexivity.
Defined.

(** X9. A document that [isTell] accepts, with or without an expected
    speech, is accepted by [isTell()] and rejected by [isAsk] whatever its
    arguments. *)
Theorem isTell_excludes_isAsk
        (d : ResponseObj) (s : option string) (s' r' : option string) :
  isTell d s = true ->
  isTell d None = true /\ isAsk d s' r' = false.
Proof.
  unfold isTell, isAsk.
  destruct (expectUserResponse (google d)); cbn; [discriminate | auto].
Qed.

Lemma isTell_excludes_isAsk_witness :
  isTell (tell (constructor None) "<speak>Bye</speak>") None = true
  /\ isAsk (tell (constructor None) "<speak>Bye</speak>") (Some "Bye") None = false.
Proof.
  apply (isTell_excludes_isAsk (tell (constructor None) "<speak>Bye</speak>")
           (Some "Bye")).
  reflexivity.
Defined.

(** ** Sequences of builder calls *)

Module SyncFacts.

(** In sync means: the head item is the speech item of [speech]. *)
Lemma speech_in_sync_items (d : ResponseObj) :
  speech_in_sync d
  <-> exists rest, items (richResponse (google d)) = simpleResponse (speech d) :: rest.
Proof.
  unfold speech_in_sync, head_ssml.
  destruct (items (richResponse (google d))) as [|[s|c] rest]; cbn.
  - split; [discriminate | intros [? ?]; discriminate].
  - split; [intros [= ->]; now exists rest | intros [? [= -> _]]; reflexivity].
  - split; [discriminate | intros [? ?]; discriminate].
Qed.

Lemma extends_sync (d d' : ResponseObj) :
  extends d d' -> speech_in_sync d -> speech_in_sync d'.
Proof.
  intros [Hs [tail Hi]]; rewrite !speech_in_sync_items.
  intros [rest E]; rewrite Hs, Hi, E; now exists (rest ++ tail)%list.
Qed.

Lemma extends_same (d d' : ResponseObj) :
  speech d' = speech d ->
  items (richResponse (google d')) = items (richResponse (google d)) ->
  extends d d'.
Proof. intros Hs Hi; split; [exact Hs | exists []; now rewrite app_nil_r]. Qed.

Lemma extends_append (d : ResponseObj) (item : ResponseItem) :
  extends d (addRichResponseItem d item).
Proof. split; [reflexivity | now exists [item]]. Qed.

Lemma addBasicCard_extends (d d' : ResponseObj) (t f : string) :
  addBasicCard d t f = Ok d' -> extends d d'.
Proof.
  unfold addBasicCard.
  destruct (BasicCardSetters.setTitle new_BasicCard t) as [c|e]; [|discriminate].
  cbn [bind].
  destruct (BasicCardSetters.setFormattedText c f) as [c'|e]; [|discriminate].
  intros [= <-]; apply extends_append.
Qed.

Lemma addImageCard_extends (d d' : ResponseObj) (t f u a : string) :
  addImageCard d t f u a = Ok d' -> extends d d'.
Proof.
  unfold addImageCard.
  destruct (BasicCardSetters.setTitle new_BasicCard t) as [c|e]; [|discriminate].
  cbn [bind].
  destruct (BasicCardSetters.setFormattedText c f) as [c'|e]; [|discriminate].
  cbn [bind].
  destruct (if truthy u then BasicCardSetters.setImage c' u a else Ok c')
    as [c''|e]; [|discriminate].
  intros [= <-]; apply extends_append.
Qed.

(** One call: a speech call brings the document in sync, every other call
    keeps it there. *)
Lemma run_builder_sync (d d' : ResponseObj) (c : BuilderCall) :
  run_builder d c = Ok d' ->
  speech_in_sync d \/ is_speech_call c = true ->
  speech_in_sync d'.
Proof.
  destruct c; cbn [run_builder is_speech_call];
    try (intros [= <-] _; reflexivity);
    intros H [S | S]; try discriminate; revert S; apply extends_sync.
  - eapply addBasicCard_extends; eassumption.
  - eapply addImageCard_extends; eassumption.
  - injection H as <-; apply extends_append.
  - injection H as <-; now apply extends_same.
  - injection H as <-; now apply extends_same.
  - injection H as <-; destruct c; now apply extends_same.
  - injection H as <-; now apply extends_same.
  - injection H as <-; now apply extends_same.
  - unfold addContextOutObject in H.
    destruct (contextOut d); [|discriminate].
    injection H as <-; now apply extends_same.
Qed.

Lemma run_builders_sync (cs : list BuilderCall) (d d' : ResponseObj) :
  run_builders d cs = Ok d' ->
  speech_in_sync d \/ existsb is_speech_call cs = true ->
  speech_in_sync d'.
Proof.
  revert d; induction cs as [|c cs IH]; intros d; cbn [run_builders existsb].
  - intros [= <-] [S | S]; [exact S | discriminate].
  - destruct (run_builder d c) as [d1|e] eqn:R; [|discriminate].
    cbn [bind]; intros H S; apply (IH d1 H).
    destruct S as [S | S].
    + left; eapply run_builder_sync; eauto.
    + apply orb_true_iff in S as [S | S]; [left | now right].
      eapply run_builder_sync; eauto.
Qed.

End SyncFacts.

(** X10. Along any sequence of builder calls that runs to its end, the flat
    [speech] and the head of the rich items agree ([items[0]] is the speech
    item whose ssml is [speech]) as soon as they agreed at the start or the
    sequence holds a [tell], an [ask] or a [play]: a speech call puts its
    item in front, every other call appends or leaves the items alone. *)
Theorem speech_stays_in_sync (cs : list BuilderCall) (d d' : ResponseObj) :
  run_builders d cs = Ok d' ->
  speech_in_sync d \/ existsb is_speech_call cs = true ->
  head_ssml d' = Ok (speech d')
  /\ exists rest,
       items (richResponse (google d')) = simpleResponse (speech d') :: rest.
Proof.
  intros R S.
  pose proof (SyncFacts.run_builders_sync cs d d' R S) as H.
  split; [exact H | now apply SyncFacts.speech_in_sync_items].
Qed.

Lemma speech_stays_in_sync_witness :
  exists d',
    run_builders (constructor None)
      [call_addBasicCard "T" "Body";
       call_ask "<speak>Which one?</speak>" "<speak>Again?</speak>";
       call_addSuggestionChips ["one"; "two"];
       call_addImageCard "T2" "Body2" "http://x/i.png" "alt";
       call_setPermission "NAME"] = Ok d'
    /\ head_ssml d' = Ok (speech d')
    /\ exists rest,
         items (richResponse (google d')) = simpleResponse (speech d') :: rest.
Proof.
  eexists; split; [reflexivity|].
  eapply (speech_stays_in_sync
            [call_addBasicCard "T" "Body";
             call_ask "<speak>Which one?</speak>" "<speak>Again?</speak>";
             call_addSuggestionChips ["one"; "two"];
             call_addImageCard "T2" "Body2" "http://x/i.png" "alt";
             call_setPermission "NAME"] (constructor None));
    [reflexivity | right; reflexivity].
Defined.

(** ** Context lookup *)

Module LookupFacts.

Lemma name_is_true (c : Context) (n : string) :
  name_is c n = true <-> name c = Some n.
Proof.
  unfold name_is; destruct (name c) as [m|]; [|split; discriminate].
  rewrite String.eqb_eq; split; congruence.
Qed.

Lemma name_is_false (c : Context) (n : string) :
  name_is c n = false <-> name c <> Some n.
Proof.
  rewrite <- name_is_true; destruct (name_is c n); split; congruence.
Qed.

(** The loop returns the first context of the name, with its index. *)
Lemma loop_first_match (l1 l2 : list Context) (c : Context) (i : nat) (n : string) :
  name c = Some n ->
  (forall c', In c' l1 -> name c' <> Some n) ->
  getContextOut_loop (l1 ++ c :: l2) i n = stored (i + List.length l1) c.
Proof.
  intros Hc; revert i; induction l1 as [|c0 l1 IH]; intros i H; cbn [app getContextOut_loop].
  - apply name_is_true in Hc; rewrite Hc; cbn; now rewrite Nat.add_0_r.
  - assert (N : name_is c0 n = false) by (apply name_is_false, H; now left).
    rewrite N, IH; [cbn; f_equal; lia | intros c' Hc'; apply H; now right].
Qed.

(** What the loop returns determines where the context sits. *)
Lemma loop_split (cs : list Context) (i : nat) (n : string) :
  (getContextOut_loop cs i n = fresh empty_object
   /\ existsb (fun c => name_is c n) cs = false)
  \/ exists l1 c l2,
       cs = (l1 ++ c :: l2)%list
       /\ getContextOut_loop cs i n = stored (i + List.length l1) c
       /\ name c = Some n
       /\ (forall c', In c' l1 -> name c' <> Some n)
       /\ existsb (fun c => name_is c n) cs = true.
Proof.
  revert i; induction cs as [|c0 cs IH]; intros i; cbn [getContextOut_loop existsb].
  - now left.
  - destruct (name_is c0 n) eqn:N.
    + right; exists [], c0, cs; cbn; rewrite Nat.add_0_r.
      repeat split; [now apply name_is_true | intros c' []].
    + destruct (IH (S i)) as [[E X] | (l1 & c & l2 & -> & E & Hc & Hl & X)].
      * left; now split.
      * right; exists (c0 :: l1), c, l2; cbn [app List.length orb].
        repeat split; [rewrite E; f_equal; lia | exact Hc | | exact X].
        intros c' [<- | Hc']; [now apply name_is_false | now apply Hl].
Qed.

Lemma assign_nth_middle (l1 l2 : list Context) (c c' : Context) :
  assign_nth (l1 ++ c :: l2) (List.length l1) c' = (l1 ++ c' :: l2)%list.
Proof. induction l1 as [|c0 l1 IH]; cbn; [reflexivity | now rewrite IH]. Qed.

Lemma strict_eq_refl (v : jsval) : strict_eq v v = true.
Proof.
  destruct v as [| |b|s]; cbn; auto; [now destruct b | apply String.eqb_refl].
Qed.

End LookupFacts.

(** X11. [getContextOut(n)] returns the first context named [n], with its
    index in [contextOut]; a later context of the same name is never
    reached. *)
Theorem getContextOut_first_match
        (d : ResponseObj) (l1 l2 : list Context) (c : Context) (n : string) :
  contextOut d = Some (l1 ++ c :: l2)%list ->
  name c = Some n ->
  (forall c', In c' l1 -> name c' <> Some n) ->
  getContextOut d n = Ok (stored (List.length l1) c).
Proof.
  intros Hd Hc Hl; unfold getContextOut; rewrite Hd; cbn [read bind].
  now rewrite (LookupFacts.loop_first_match l1 l2 c 0 n Hc Hl).
Qed.

Lemma getContextOut_first_match_witness :
  getContextOut
    (setContextOut (constructor None)
       [mkContext (Some "other") None;
        mkContext (Some "session") (Some [("STATE", JStr "A")]);
        mkContext (Some "session") (Some [("STATE", JStr "B")])])
    "session"
  = Ok (stored 1 (mkContext (Some "session") (Some [("STATE", JStr "A")]))).
Proof.
  apply (getContextOut_first_match _
           [mkContext (Some "other") None]
           [mkContext (Some "session") (Some [("STATE", JStr "B")])]).
  - reflexivity.
  - reflexivity.
  - intros c' [<- | []]; discriminate.
Defined.

(** X12. [addContextOutObject] throws a [TypeError] on a document without a
    [contextOut] array (the default document is one).  With an array that
    holds no context named [n], a context named [n] is appended and
    [getContextOut(n)] then returns it, at the last index. *)
Theorem addContextOutObject_then_getContextOut
        (d : ResponseObj) (c : Context) (n : string) :
  name c = Some n ->
  (contextOut d = None -> addContextOutObject d c = Throw TypeError)
  /\ (forall cs,
        contextOut d = Some cs ->
        (forall c', In c' cs -> name c' <> Some n) ->
        exists d',
          addContextOutObject d c = Ok d'
          /\ contextOut d' = Some (cs ++ [c])%list
          /\ getContextOut d' n = Ok (stored (List.length cs) c)).
Proof.
  intros Hc; split.
  - unfold addContextOutObject; now intros ->.
  - intros cs Hd Hcs; unfold addContextOutObject; rewrite Hd; cbn [read bind].
    eexists; split; [reflexivity | split; [reflexivity|]].
    unfold getContextOut; cbn [contextOut read bind].
    now rewrite (LookupFacts.loop_first_match cs [] c 0 n Hc Hcs).
Qed.

Lemma addContextOutObject_then_getContextOut_witness :
  addContextOutObject (constructor None) (mkContext (Some "session") None)
  = Throw TypeError
  /\ exists d',
       addContextOutObject (setContextOut (constructor None) [])
         (mkContext (Some "session") None) = Ok d'
       /\ contextOut d' = Some [mkContext (Some "session") None]
       /\ getContextOut d' "session"
          = Ok (stored 0 (mkContext (Some "session") None)).
Proof.
  destruct (addContextOutObject_then_getContextOut (constructor None)
              (mkContext (Some "session") None) "session" eq_refl) as [H _].
  split; [exact (H eq_refl)|].
  destruct (addContextOutObject_then_getContextOut
              (setContextOut (constructor None) [])
              (mkContext (Some "session") None) "session" eq_refl) as [_ H'].
  apply (H' [] eq_refl); intros c' [].
Defined.

(** X13. On a document with a [contextOut] array, [hasContextOutParameter]
    without a parameter name (omitted or empty) says whether the array holds
    a context of the given name; the value argument plays no part. *)
Theorem hasContextOutParameter_presence
        (d : ResponseObj) (cs : list Context) (n : string) (v : jsval) :
  contextOut d = Some cs ->
  hasContextOutParameter d n None v = Ok (existsb (fun c => name_is c n) cs)
  /\ hasContextOutParameter d n (Some "") v
     = Ok (existsb (fun c => name_is c n) cs).
Proof.
  intros Hd; unfold hasContextOutParameter, getContextOut; rewrite Hd.
  cbn [read bind].
  destruct (LookupFacts.loop_split cs 0 n)
    as [[E X] | (l1 & c & l2 & _ & E & Hc & _ & X)]; rewrite E, X; cbn.
  - now split.
  - unfold object_keys; rewrite Hc; destruct (parameters c); now split.
Qed.

Lemma hasContextOutParameter_presence_witness :
  hasContextOutParameter
    (setContextOut (constructor None) [mkContext (Some "session") None])
    "session" None JUndefined = Ok true
  /\ hasContextOutParameter
       (setContextOut (constructor None) [mkContext (Some "session") None])
       "session" (Some "") JUndefined = Ok true.
Proof.
  apply (hasContextOutParameter_presence
           (setContextOut (constructor None) [mkContext (Some "session") None])
           [mkContext (Some "session") None] "session" JUndefined).
  reflexivity.
Defined.

(** X14. Let [_.set(context, 'parameters.' + p, v)] keep the context's name
    and leave [v] under the key [p] of its [parameters] (what lodash does for
    a plain key [p]).  Then on a document that holds a context named [n],
    [addContextOutParameter(n, p, v)] followed by
    [getContextOutParameter(n, p)] returns [v], [hasContextOutParameter(n, p,
    v)] is [true] for a non-empty [p], and speech and [data.google] are as
    before. *)
Theorem addContextOutParameter_then_get
        (lodash_set : Context -> string -> jsval -> Context)
        (d : ResponseObj) (cs : list Context) (n p : string) (v : jsval) :
  (forall c,
      name (lodash_set c ("parameters." ++ p) v) = name c
      /\ exists ps,
           parameters (lodash_set c ("parameters." ++ p) v) = Some ps
           /\ lookup_parameter ps p = v) ->
  contextOut d = Some cs ->
  existsb (fun c => name_is c n) cs = true ->
  p <> "" ->
  exists d',
    addContextOutParameter lodash_set d n p v = Ok d'
    /\ getContextOutParameter d' n p = Ok v
    /\ hasContextOutParameter d' n (Some p) v = Ok true
    /\ speech d' = speech d
    /\ google d' = google d.
Proof.
  intros L Hd Hex Hp.
  unfold addContextOutParameter, getContextOut; rewrite Hd; cbn [read bind].
  destruct (LookupFacts.loop_split cs 0 n)
    as [[E X] | (l1 & c & l2 & -> & E & Hc & Hl & X)]; [congruence|].
  rewrite E; cbn [Nat.add].
  destruct (L c) as [Ln (ps & Lp & Lv)].
  set (c' := lodash_set c ("parameters." ++ p) v) in *.
  assert (Hc' : name c' = Some n) by congruence.
  assert (G : getContextOut (write_context d (List.length l1) c') n
              = Ok (stored (List.length l1) c')).
  { unfold getContextOut, write_context; rewrite Hd.
    cbn [contextOut option_map read bind].
    rewrite LookupFacts.assign_nth_middle.
    now rewrite (LookupFacts.loop_first_match l1 l2 c' 0 n Hc' Hl). }
  assert (Tp : truthy p = true) by now apply CardFacts.truthy_true.
  eexists; split; [reflexivity|].
  unfold getContextOutParameter, hasContextOutParameter; rewrite G.
  cbn [bind deref object_truthy negb orb].
  unfold object_keys; rewrite Hc', Lp, Tp; cbn.
  now rewrite Lv, LookupFacts.strict_eq_refl.
Qed.

Lemma addContextOutParameter_then_get_witness :
  exists d',
    addContextOutParameter set_plain_parameter
      (setContextOut (constructor None)
         [mkContext (Some "other") None; mkContext (Some "session") None])
      "session" "STATE" (JStr "Start") = Ok d'
    /\ getContextOutParameter d' "session" "STATE" = Ok (JStr "Start")
    /\ hasContextOutParameter d' "session" (Some "STATE") (JStr "Start") = Ok true
    /\ speech d' = speech (constructor None)
    /\ google d' = google (constructor None).
Proof.
  apply (addContextOutParameter_then_get set_plain_parameter
           (setContextOut (constructor None)
              [mkContext (Some "other") None; mkContext (Some "session") None])
           [mkContext (Some "other") None; mkContext (Some "session") None]).
  - intros c; split; [reflexivity|].
    eexists; split; reflexivity.
  - reflexivity.
  - reflexivity.
  - discriminate.
Defined.

(** ** Permissions, suggestions and UI elements *)

Module BuilderFacts.
Import UniqFacts.

Lemma uniq_push_member (l : list string) (p : string) :
  In p l -> NoDup l -> uniq (l ++ [p])%list = l.
Proof.
  intros Hin Hnd; rewrite uniq_push, (uniq_NoDup_id l Hnd).
  apply existsb_eqb_In in Hin; now rewrite Hin.
Qed.

(** Pushing the chips one by one on an empty array gives the chips. *)
Lemma push_all (acc chips : list string) :
  fold_left (fun acc chip => (acc ++ [chip])%list) chips acc = (acc ++ chips)%list.
Proof.
  revert acc; induction chips as [|c chips IH]; intros acc; cbn.
  - now rewrite app_nil_r.
  - now rewrite IH, <- app_assoc.
Qed.

Lemma addItem_all (c : Collection) (l : list OptionItem) :
  fold_left CollectionMethods.addItem l c
  = mkCollection (collection_items c ++ l)%list (collection_title c).
Proof.
  revert c; induction l as [|i l IH]; intros c; cbn.
  - rewrite app_nil_r; now destruct c.
  - rewrite IH; cbn; now rewrite <- app_assoc.
Qed.

(** The chain of [addSynonym] calls over non-empty synonyms. *)
Lemma addSynonyms_Ok (i : OptionItem) (l : list string) :
  Forall (fun s => s <> "") l ->
  OptionItemMethods.addSynonyms i l
  = Ok (mkOptionItem (item_title i) (item_description i) (item_image i)
          (mkOptionInfo (key (optionInfo i)) (synonyms (optionInfo i) ++ l)%list)).
Proof.
  intros H; revert i; induction H as [|s l Hs Hl IH]; intros i; cbn.
  - rewrite app_nil_r; now destruct i as [? ? ? []].
  - unfold OptionItemMethods.addSynonym.
    apply CardFacts.truthy_true in Hs; rewrite Hs; cbn [negb bind].
    rewrite IH; cbn; now rewrite <- app_assoc.
Qed.

(** The chain ends at the first empty synonym. *)
Lemma addSynonyms_Throw (i : OptionItem) (l1 l2 : list string) :
  Forall (fun s => s <> "") l1 ->
  OptionItemMethods.addSynonyms i (l1 ++ "" :: l2)%list
  = Throw (Error "synonym cannot be empty").
Proof.
  intros H; revert i; induction H as [|s l Hs Hl IH]; intros i; cbn.
  - reflexivity.
  - unfold OptionItemMethods.addSynonym.
    apply CardFacts.truthy_true in Hs; rewrite Hs; cbn [negb bind].
    apply IH.
Qed.

Lemma keep_truthy_id (a : option string) : keep_truthy a = a <-> a <> Some "".
Proof.
  unfold keep_truthy; destruct a as [s|]; cbn; [|split; [discriminate | reflexivity]].
  destruct (truthy s) eqn:T.
  - apply CardFacts.truthy_true in T; split; congruence.
  - apply SpeechFacts.truthy_false in T; subst; split; [discriminate | congruence].
Qed.

Lemma keep_truthy_nonempty (a : option string) : keep_truthy a <> Some "".
Proof.
  unfold keep_truthy; destruct a as [s|]; cbn; [|discriminate].
  destruct (truthy s) eqn:T; [|discriminate].
  apply CardFacts.truthy_true in T; congruence.
Qed.

End BuilderFacts.

(** X15. After [setPermissionToResponse(p)] the permissions hold no value
    twice, whatever the document held before, and they hold exactly the old
    values and [p]; a second call with the same [p] returns the same
    document. *)
Theorem setPermissionToResponse_is_set_insertion (d : ResponseObj) (p : string) :
  NoDup (getPermissions (setPermissionToResponse d p))
  /\ (forall x,
        In x (getPermissions (setPermissionToResponse d p))
        <-> In x (getPermissions d) \/ x = p)
  /\ setPermissionToResponse (setPermissionToResponse d p) p
     = setPermissionToResponse d p.
Proof.
  rewrite PermissionFacts.getPermissions_set; split; [apply UniqFacts.uniq_NoDup|].
  split.
  - intros x; rewrite UniqFacts.uniq_In, in_app_iff; cbn; intuition congruence.
  - unfold setPermissionToResponse at 1.
    rewrite PermissionFacts.getPermissions_set, BuilderFacts.uniq_push_member;
      [reflexivity | | apply UniqFacts.uniq_NoDup].
    apply UniqFacts.uniq_In, in_or_app; right; now left.
Qed.

(** X16. [addSuggestionChips] replaces the suggestions: after the call they
    are the given chips in order, whatever was there, so of two calls only
    the second counts; speech, items and [expectUserResponse] are left
    alone, and the call commutes with [addLinkOutSuggestion]. *)
Theorem addSuggestionChips_replaces
        (d : ResponseObj) (chips1 chips2 : list string) (n u : string) :
  suggestions (richResponse (google (addSuggestionChips d chips2))) = Some chips2
  /\ addSuggestionChips (addSuggestionChips d chips1) chips2
     = addSuggestionChips d chips2
  /\ items (richResponse (google (addSuggestionChips d chips2)))
     = items (richResponse (google d))
  /\ speech (addSuggestionChips d chips2) = speech d
  /\ expectUserResponse (google (addSuggestionChips d chips2))
     = expectUserResponse (google d)
  /\ addSuggestionChips (addLinkOutSuggestion d n u) chips2
     = addLinkOutSuggestion (addSuggestionChips d chips2) n u.
Proof.
  unfold addSuggestionChips; rewrite !BuilderFacts.push_all; cbn.
  repeat split.
Qed.

(** X17. A chain of [addSynonym] calls over non-empty synonyms appends them
    to the item's synonyms in call order and changes nothing else; a chain
    that meets an empty synonym throws ['synonym cannot be empty'] at the
    first one. *)
Theorem addSynonyms_in_call_order (i : OptionItem) (l1 l2 : list string) :
  Forall (fun s => s <> "") l1 ->
  OptionItemMethods.addSynonyms i l1
  = Ok (mkOptionItem (item_title i) (item_description i) (item_image i)
          (mkOptionInfo (key (optionInfo i)) (synonyms (optionInfo i) ++ l1)%list))
  /\ OptionItemMethods.addSynonyms i (l1 ++ "" :: l2)%list
     = Throw (Error "synonym cannot be empty").
Proof.
  intros H; split;
    [now apply BuilderFacts.addSynonyms_Ok | now apply BuilderFacts.addSynonyms_Throw].
Qed.

Lemma addSynonyms_in_call_order_witness :
  OptionItemMethods.addSynonyms (OptionItemMethods.constructor None) ["s1"; "s2"]
  = Ok (mkOptionItem None None None (mkOptionInfo "" ["s1"; "s2"]))
  /\ OptionItemMethods.addSynonyms (OptionItemMethods.constructor None)
       ["s1"; "s2"; ""; "s3"]
     = Throw (Error "synonym cannot be empty").
Proof.
  apply (addSynonyms_in_call_order (OptionItemMethods.constructor None)
           ["s1"; "s2"] ["s3"]).
  repeat constructor; discriminate.
Defined.

(** X18. The copy constructor of [BasicCard] never yields a card with an
    empty title, subtitle or text, and it returns a card equal to its
    argument exactly when the argument has none of them empty. *)
Theorem BasicCard_copy (b : BasicCard) :
  no_empty_field (BasicCardMethods.constructor (Some b))
  /\ (BasicCardMethods.constructor (Some b) = b <-> no_empty_field b).
Proof.
  unfold no_empty_field; cbn; split.
  - repeat split; apply BuilderFacts.keep_truthy_nonempty.
  - rewrite <- !BuilderFacts.keep_truthy_id; destruct b as [t s f i bs]; cbn; split.
    + intros [= Ht Hs Hf]; now rewrite Ht, Hs, Hf.
    + intros (-> & -> & ->); reflexivity.
Qed.

(** X19. Whatever its arguments and however it ends, [addButton] leaves the
    card with a [buttons] array that starts with the old buttons: a call
    that throws (empty text, or empty url with a non-empty text) adds
    nothing but still creates the array, a call that returns adds one
    button at the end. *)
Theorem addButton_creates_buttons (c : BasicCard) (text u : string) :
  let old := match buttons c with Some bs => bs | None => [] end in
  (text = "" ->
   BasicCardMethods.addButton c text u
   = (mkBasicCard (title c) (subtitle c) (formattedText c) (image c) (Some old),
      Throw (Error "text cannot be empty")))
  /\ (text <> "" -> u = "" ->
      BasicCardMethods.addButton c text u
      = (mkBasicCard (title c) (subtitle c) (formattedText c) (image c) (Some old),
         Throw (Error "url cannot be empty")))
  /\ (text <> "" -> u <> "" ->
      BasicCardMethods.addButton c text u
      = (mkBasicCard (title c) (subtitle c) (formattedText c) (image c)
           (Some (old ++ [mkButton text u])%list),
         Ok tt)).
Proof.
  cbn zeta; unfold BasicCardMethods.addButton; split; [|split].
  - now intros ->.
  - intros Ht ->; apply CardFacts.truthy_true in Ht; now rewrite Ht.
  - intros Ht Hu; apply CardFacts.truthy_true in Ht, Hu; now rewrite Ht, Hu.
Qed.

(** X20. A list built with [addItem] holds its items in call order, behind
    the items it was constructed with, and keeps its title; handed to
    [addList] it is what the document's system intent carries. *)
Theorem addItem_in_call_order
        (d : ResponseObj) (c : Collection) (l : list OptionItem) :
  fold_left CollectionMethods.addItem l c
  = mkCollection (collection_items c ++ l)%list (collection_title c)
  /\ option_map (fun s => select_value (data s))
       (systemIntent (google (addList d (fold_left CollectionMethods.addItem l c))))
     = Some (mkCollection (collection_items c ++ l)%list (collection_title c)).
Proof.
  rewrite BuilderFacts.addItem_all; split; reflexivity.
Qed.

(** X21. Both [setImage] methods test the url before the accessibility
    text, and store a width or height only when it is not zero: a zero is
    dropped like an omitted argument.  The two-argument call the card
    builder makes is the call without width and height. *)
Theorem setImage_drops_zero
        (c : BasicCard) (i : OptionItem) (u a : string) (w h : option nat) :
  BasicCardMethods.setImage c "" a w h = Throw (Error "url cannot be empty")
  /\ OptionItemMethods.setImage i "" a w h = Throw (Error "url cannot be empty")
  /\ BasicCardMethods.setImage c u a (Some 0) h = BasicCardMethods.setImage c u a None h
  /\ BasicCardMethods.setImage c u a w (Some 0) = BasicCardMethods.setImage c u a w None
  /\ OptionItemMethods.setImage i u a (Some 0) h = OptionItemMethods.setImage i u a None h
  /\ OptionItemMethods.setImage i u a w (Some 0) = OptionItemMethods.setImage i u a w None
  /\ BasicCardSetters.setImage c u a = BasicCardMethods.setImage c u a None None.
Proof. repeat split. Qed.

Module ValueFacts.

Lemma non_speech_frame (d d' : ResponseObj) (c : BuilderCall) :
  is_speech_call c = false ->
  run_builder d c = Ok d' ->
  speech d' = speech d
  /\ expectUserResponse (google d') = expectUserResponse (google d)
  /\ noInputPrompts (google d') = noInputPrompts (google d).
Proof.
  destruct c; cbn [is_speech_call run_builder]; try discriminate; intros _ H;
    try (injection H as <-; repeat split; fail).
  - unfold addBasicCard in H.
    destruct (BasicCardSetters.setTitle new_BasicCard title0) as [c|e]; [|discriminate].
    cbn [bind] in H.
    destruct (BasicCardSetters.setFormattedText c formattedText0) as [c'|e];
      [|discriminate].
    injection H as <-; repeat split.
  - unfold addImageCard in H.
    destruct (BasicCardSetters.setTitle new_BasicCard title0) as [c|e]; [|discriminate].
    cbn [bind] in H.
    destruct (BasicCardSetters.setFormattedText c formattedText0) as [c'|e];
      [|discriminate].
    cbn [bind] in H.
    destruct (if truthy imageUrl
              then BasicCardSetters.setImage c' imageUrl accessibilityText0
              else Ok c') as [c''|e]; [|discriminate].
    injection H as <-; repeat split.
  - injection H as <-; destruct c; repeat split.
  - unfold addContextOutObject in H.
    destruct (contextOut d); [|discriminate].
    injection H as <-; repeat split.
Qed.

Lemma non_speech_frames (cs : list BuilderCall) (d d' : ResponseObj) :
  existsb is_speech_call cs = false ->
  run_builders d cs = Ok d' ->
  speech d' = speech d
  /\ expectUserResponse (google d') = expectUserResponse (google d)
  /\ noInputPrompts (google d') = noInputPrompts (google d).
Proof.
  revert d; induction cs as [|c cs IH]; intros d; cbn [existsb run_builders].
  - intros _ [= <-]; repeat split.
  - intros S H; apply orb_false_iff in S as [Sc Scs].
    destruct (run_builder d c) as [d1|e] eqn:R; [|discriminate].
    cbn [bind] in H.
    destruct (non_speech_frame d d1 c Sc R) as (A & B & C).
    destruct (IH d1 Scs H) as (A' & B' & C').
    repeat split; congruence.
Qed.

Lemma tell_all_items (l : list string) (d : ResponseObj) :
  items (richResponse (google (fold_left tell l d)))
  = (map simpleResponse (rev l) ++ items (richResponse (google d)))%list.
Proof.
  revert d; induction l as [|s l IH]; intros d; cbn [fold_left rev map app].
  - reflexivity.
  - rewrite IH, map_app, <- app_assoc; reflexivity.
Qed.

Lemma tell_all_reprompt (l : list string) (d : ResponseObj) :
  noInputPrompts (google (fold_left tell l d)) = noInputPrompts (google d).
Proof.
  revert d; induction l as [|s l IH]; intros d; cbn [fold_left];
    [reflexivity | now rewrite IH].
Qed.

End ValueFacts.



(** X23. A sequence of builder calls without [tell], [ask] and [play] that
    runs to its end changes neither [speech] nor [expectUserResponse] nor
    the reprompts, so [isTell()] and [isAsk()] answer as before. *)
Theorem non_speech_calls_keep_the_turn
        (cs : list BuilderCall) (d d' : ResponseObj) :
  existsb is_speech_call cs = false ->
  run_builders d cs = Ok d' ->
  speech d' = speech d
  /\ expectUserResponse (google d') = expectUserResponse (google d)
  /\ noInputPrompts (google d') = noInputPrompts (google d)
  /\ isTell d' None = isTell d None
  /\ isAsk d' None None = isAsk d None None.
Proof.
  intros S R.
  destruct (ValueFacts.non_speech_frames cs d d' S R) as (A & B & C).
  repeat split; try assumption; unfold isTell, isAsk; now rewrite B.
Qed.

Lemma non_speech_calls_keep_the_turn_witness :
  exists d',
    run_builders (tell (constructor None) "<speak>Bye</speak>")
      [call_addBasicCard "T" "Body"; call_addSuggestionChips ["a"];
       call_addOption (call_addList (CollectionMethods.constructor None));
       call_setPermission "NAME"; call_setContextOut []] = Ok d'
    /\ speech d' = "<speak>Bye</speak>"
    /\ expectUserResponse (google d') = false
    /\ isTell d' None = true.
Proof.
  eexists; split; [reflexivity|].
  destruct (non_speech_calls_keep_the_turn
              [call_addBasicCard "T" "Body"; call_addSuggestionChips ["a"];
               call_addOption (call_addList (CollectionMethods.constructor None));
               call_setPermission "NAME"; call_setContextOut []]
              (tell (constructor None) "<speak>Bye</speak>") _ eq_refl eq_refl)
    as (A & B & _ & D & _).
  split; [exact A | split; [exact B | exact D]].
Defined.

(** X24. [tell] only adds: after a sequence of [tell] calls the items are
    the spoken texts, newest first, in front of the items that were there,
    none of which is removed, and a reprompt left by an earlier [ask] is
    still stored. *)
Theorem tell_calls_stack (l : list string) (d : ResponseObj) :
  items (richResponse (google (fold_left tell l d)))
  = (map simpleResponse (rev l) ++ items (richResponse (google d)))%list
  /\ noInputPrompts (google (fold_left tell l d)) = noInputPrompts (google d).
Proof.
  split; [apply ValueFacts.tell_all_items | apply ValueFacts.tell_all_reprompt].
Qed.
